(** * kube-signalhound: the GitHub project-board synchroniser

    A shallow embedding of [internal/github/github.go]: the version
    utilities ([extractVersion], [compareVersions]), field discovery
    ([GetProjectFields]) and the draft-item creator ([CreateDraftIssue]),
    together with the parts of the Go standard library they call
    ([strings], [strconv], [regexp]).

    Modelling choices.
    - Strings are sequences of bytes, as in Go. [strings.ToLower] is a
      parameter of the resolver, so that what is proved holds for Go's
      Unicode-aware function; the examples run with its ASCII case mapping.
    - [int] values are integers of [Z]; [strconv.Atoi] is embedded with its
      fast path, its range checks and the values it returns with an error.
    - [g4.ID] is an interface type: the nil interface and the empty string
      are different values, and the code compares with the latter.
    - The options of a field are a Go map. The order in which [range]
      visits a map is left open by the language, so each of the four loops
      over the options takes its visiting order from a parameter; the
      order is valid when it lists exactly the entries of the map.
    - Remote calls are effects: an operation is a function from the world
      before (the requests sent so far, the lines printed) to its result
      and the world after. The remote itself is a parameter that answers
      each request as a function of the requests it has already seen. *)

From Stdlib Require Import ZArith Ascii String List Lia Bool.
From stdpp Require Import base option list strings gmap fin_maps.

Local Open Scope string_scope.
Local Open Scope Z_scope.
Local Open Scope list_scope.

(* ===================================================================== *)
(** * Go's [strings] package (the functions the program calls)            *)
(* ===================================================================== *)

Module GoStrings.

(** [strings.Contains(s, substr)]: [substr] occurs in [s], bytewise. *)
Fixpoint Contains (s substr : string) : bool :=
  String.prefix substr s ||
  match s with
  | EmptyString => false
  | String _ s' => Contains s' substr
  end.

(** [strings.Split(s, sep)] for a one-byte separator: the pieces of [s]
    between consecutive occurrences of [sep]; one more piece than there
    are separators, so [Split "" sep] is [[""]]. *)
Fixpoint Split (s : string) (sep : ascii) : list string :=
  match s with
  | EmptyString => [EmptyString]
  | String c s' =>
      if Ascii.eqb c sep then EmptyString :: Split s' sep
      else match Split s' sep with
           | [] => [String c EmptyString]
           | p :: ps => String c p :: ps
           end
  end.

(** The byte-level case mapping of [strings.ToLower]: ['A'..'Z'] go to
    ['a'..'z'], every other byte is kept. It is what [strings.ToLower]
    computes on ASCII text. *)
Definition lowerByte (c : ascii) : ascii :=
  let n := N_of_ascii c in
  if ((65 <=? n) && (n <=? 90))%N then ascii_of_N (n + 32) else c.

Fixpoint ToLowerASCII (s : string) : string :=
  match s with
  | EmptyString => EmptyString
  | String c s' => String (lowerByte c) (ToLowerASCII s')
  end.

End GoStrings.

(* ===================================================================== *)
(** * Go's [strconv.Atoi]                                                 *)
(* ===================================================================== *)

Module strconv.

(** [int] is 64 bits wide on the platforms the tool is built for. *)
Definition intSize : Z := 64.
Definition maxUint64 : Z := 2 ^ 64 - 1.
Definition maxInt : Z := 2 ^ (intSize - 1) - 1.
Definition minInt : Z := - 2 ^ (intSize - 1).

(** Conversion [int64(u)] of an unsigned 64-bit value, and negation of
    an [int64], both with two's-complement wrap-around. *)
Definition wrap64 (z : Z) : Z := (z + 2 ^ 63) mod 2 ^ 64 - 2 ^ 63.

Inductive NumError : Type := ErrSyntax | ErrRange.

Definition isDigit (c : ascii) : bool :=
  let n := N_of_ascii c in ((48 <=? n) && (n <=? 57))%N.

Definition digitVal (c : ascii) : Z := Z.of_N (N_of_ascii c) - 48.

Definition isSign (c : ascii) : bool :=
  Ascii.eqb c "-" || Ascii.eqb c "+".

(** The digit loop of [Atoi]'s fast path: no overflow check, because the
    caller has bounded the length. [None] is the syntax error. *)
Fixpoint fastLoop (s : string) (n : Z) : option Z :=
  match s with
  | EmptyString => Some n
  | String ch s' =>
      if isDigit ch then fastLoop s' (n * 10 + digitVal ch) else None
  end.

(** The digit loop of [ParseUint(s, 10, 64)]: stops at the first byte
    that is not a digit (syntax error, value 0) or at the first step
    that would leave the [uint64] range (range error, value
    [maxUint64]), whichever comes first. *)
Fixpoint parseUintLoop (s : string) (n : Z) : Z * option NumError :=
  match s with
  | EmptyString => (n, None)
  | String c s' =>
      if isDigit c then
        if n >=? maxUint64 / 10 + 1 then (maxUint64, Some ErrRange)
        else
          let n10 := n * 10 in
          let n1 := (n10 + digitVal c) mod 2 ^ 64 in
          if (n1 <? n10) || (n1 >? maxUint64) then (maxUint64, Some ErrRange)
          else parseUintLoop s' n1
      else (0, Some ErrSyntax)
  end.

Definition ParseUint (s : string) : Z * option NumError :=
  match s with
  | EmptyString => (0, Some ErrSyntax)
  | _ => parseUintLoop s 0
  end.

(** [ParseInt(s, 10, 0)]. *)
Definition ParseInt (s : string) : Z * option NumError :=
  match s with
  | EmptyString => (0, Some ErrSyntax)
  | String c0 rest =>
      let neg := Ascii.eqb c0 "-" in
      let s1 := if isSign c0 then rest else s in
      let '(un, err) := ParseUint s1 in
      match err with
      | Some ErrSyntax => (0, Some ErrSyntax)
      | _ =>
          let cutoff := 2 ^ (intSize - 1) in
          if negb neg && (un >=? cutoff) then (cutoff - 1, Some ErrRange)
          else if neg && (un >? cutoff) then (- cutoff, Some ErrRange)
          else
            let n := wrap64 un in
            (if neg then wrap64 (- n) else n, None)
      end
  end.

(** [strconv.Atoi]: a fast path for inputs of 1 to 18 bytes, and
    [ParseInt] for the rest. *)
Definition Atoi (s : string) : Z * option NumError :=
  let sLen := String.length s in
  if ((0 <? sLen) && (sLen <? 19))%nat then
    match s with
    | EmptyString => (0, Some ErrSyntax)
    | String c0 rest =>
        let s1 := if isSign c0 then rest else s in
        match s1 with
        | EmptyString => (0, Some ErrSyntax)
        | _ =>
            match fastLoop s1 0 with
            | None => (0, Some ErrSyntax)
            | Some n => (if Ascii.eqb c0 "-" then - n else n, None)
            end
        end
    end
  else ParseInt s.

End strconv.

(* ===================================================================== *)
(** * Go's [regexp]: the fragment [versionPattern] is written in          *)
(* ===================================================================== *)

Module regexp.

Inductive Regexp : Type :=
| Lit (c : ascii)                 (* a literal byte *)
| Digit                           (* \d, the class [0-9] *)
| Quest (r : Regexp)              (* r?, preferring one occurrence *)
| Plus (r : Regexp)               (* r+, preferring more occurrences *)
| Concat (r1 r2 : Regexp)
| Capture (i : nat) (r : Regexp). (* the i-th parenthesised group *)

(** What [r] consumed when it was entered on [s] and left on [s']. *)
Definition consumed (s s' : string) : string :=
  substring 0 (String.length s - String.length s') s.

(** A backtracking matcher in continuation-passing style. Alternatives
    are tried in the order of preference of Go's leftmost-first
    semantics, so the first success is the match Go reports. [fuel]
    bounds the iterations of [Plus]; one more than the length of the
    input is enough when every iteration consumes a byte. *)
Fixpoint run (fuel : nat) : Regexp -> string -> list string ->
    (string -> list string -> option (list string)) -> option (list string) :=
  fix go (r : Regexp) (s : string) (caps : list string)
         (k : string -> list string -> option (list string)) :=
    match r with
    | Lit c =>
        match s with
        | String x s' => if Ascii.eqb x c then k s' caps else None
        | EmptyString => None
        end
    | Digit =>
        match s with
        | String x s' => if strconv.isDigit x then k s' caps else None
        | EmptyString => None
        end
    | Quest r1 =>
        match go r1 s caps k with
        | Some m => Some m
        | None => k s caps
        end
    | Plus r1 =>
        go r1 s caps (fun s1 c1 =>
          match
            match fuel with
            | O => None
            | S f => run f (Plus r1) s1 c1 k
            end
          with
          | Some m => Some m
          | None => k s1 c1
          end)
    | Concat r1 r2 => go r1 s caps (fun s1 c1 => go r2 s1 c1 k)
    | Capture i r1 =>
        go r1 s caps (fun s1 c1 => k s1 (<[i := consumed s s1]> c1))
    end.

Fixpoint numCap (r : Regexp) : nat :=
  match r with
  | Lit _ | Digit => 0
  | Quest r1 | Plus r1 => numCap r1
  | Concat r1 r2 => numCap r1 + numCap r2
  | Capture _ r1 => S (numCap r1)
  end.

(** A match anchored at the start of [s]: entry 0 is the whole match,
    entry [i] the text of group [i]. *)
Definition matchHere (re : Regexp) (s : string) : option (list string) :=
  run (S (String.length s)) (Capture 0 re) s
      (replicate (S (numCap re)) EmptyString)
      (fun _ caps => Some caps).

(** [re.FindStringSubmatch(s)]: the match at the leftmost position that
    has one; [None] is Go's nil slice. *)
Fixpoint FindStringSubmatch (re : Regexp) (s : string) : option (list string) :=
  match matchHere re s with
  | Some m => Some m
  | None =>
      match s with
      | EmptyString => None
      | String _ s' => FindStringSubmatch re s'
      end
  end.

End regexp.

(* ===================================================================== *)
(** * Version utilities of package [github]                               *)
(* ===================================================================== *)

Import regexp.

(** [regexp.MustCompile(`v?(\d+)\.(\d+)`)]. *)
Definition versionPattern : Regexp :=
  Concat (Quest (Lit "v"))
    (Concat (Capture 1 (Plus Digit))
       (Concat (Lit ".") (Capture 2 (Plus Digit)))).

(** [extractVersion] extracts a version string from text. *)
Definition extractVersion (text : string) : string :=
  match FindStringSubmatch versionPattern text with
  | Some matches =>
      if (3 <=? length matches)%nat
      then (matches !!! 1%nat) +:+ "." +:+ (matches !!! 2%nat)
      else ""
  | None => ""
  end.

(** The body of the [for i := 0; i < maxLen; i++] loop of
    [compareVersions]; [n] counts the iterations still to run. *)
Fixpoint compareVersions_loop (parts1 parts2 : list string) (n i : nat) : Z :=
  match n with
  | O => 0
  | S n' =>
      let num1 :=
        if (i <? length parts1)%nat then (strconv.Atoi (parts1 !!! i)).1 else 0 in
      let num2 :=
        if (i <? length parts2)%nat then (strconv.Atoi (parts2 !!! i)).1 else 0 in
      if num1 >? num2 then 1
      else if num1 <? num2 then -1
      else compareVersions_loop parts1 parts2 n' (S i)
  end.

(** [compareVersions] compares two version strings:
    1 if v1 > v2, -1 if v1 < v2, 0 if equal. *)
Definition compareVersions (v1 v2 : string) : Z :=
  let parts1 := GoStrings.Split v1 "." in
  let parts2 := GoStrings.Split v2 "." in
  let maxLen := length parts1 in
  let maxLen := if (maxLen <? length parts2)%nat then length parts2 else maxLen in
  compareVersions_loop parts1 parts2 maxLen 0.

(* ===================================================================== *)
(** * Data model of package [github]                                      *)
(* ===================================================================== *)

(** [g4.ID] is an interface type: a value is either the nil interface (the
    zero value of a declared variable) or holds a dynamic value, which for
    an identifier of the API is a string. [g4.ID("")] is [strID ""], and
    is different from [nilID]. *)
Inductive g4_ID : Type :=
| nilID
| strID (s : string).

#[global] Instance g4_ID_eq_dec : EqDecision g4_ID.
Proof. solve_decision. Defined.

(** [fmt.Sprintf("%s", id)]. *)
Definition Sprintf_s (id : g4_ID) : string :=
  match id with
  | nilID => "%!s(<nil>)"
  | strID s => s
  end.

(** Go's [error] values, as far as the program builds them. *)
Inductive error : Type :=
| errors_New (msg : string)
| fmt_Errorf_w (prefix : string) (err : error).  (* fmt.Errorf(prefix + "%w", err) *)

Fixpoint Error (e : error) : string :=
  match e with
  | errors_New msg => msg
  | fmt_Errorf_w prefix err => prefix +:+ Error err
  end.

(** [errors.Unwrap]. *)
Definition Unwrap (e : error) : option error :=
  match e with
  | errors_New _ => None
  | fmt_Errorf_w _ err => Some err
  end.

Definition PROJECT_ID : string := "PVT_kwDOAM_34M4AAThW".
Definition ORGANIZATION : string := "kubernetes".

(** ProjectFieldInfo represents a project field with its options. *)
Record ProjectFieldInfo : Type := {
  ID : g4_ID;
  Name : string;
  Options : gmap string g4_ID  (* option name -> option ID *)
}.

(** The nodes of the query of [GetProjectFields]. *)
Record OptionNode : Type := { optID : g4_ID; optName : string }.

Record SingleSelectNode : Type := {
  ssID : g4_ID;
  ssName : string;
  ssOptions : list OptionNode
}.

Record IterationNode : Type := { itID : g4_ID; itName : string }.

Record FieldNode : Type := {
  Typename : string;
  ProjectV2SingleSelectField : SingleSelectNode;
  ProjectV2IterationField : IterationNode
}.

(** Inputs of the two mutations. *)
Record AddProjectV2DraftIssueInput : Type := {
  draftProjectID : g4_ID;
  draftTitle : string;
  draftBody : option string
}.

Record UpdateProjectV2ItemFieldValueInput : Type := {
  updProjectID : g4_ID;
  updItemID : g4_ID;
  updFieldID : g4_ID;
  updSingleSelectOptionID : option string  (* Value.SingleSelectOptionID *)
}.

(** The client holds the token of its OAuth2 transport. *)
Record Client : Type := { AccessToken : string }.

(** ProjectManager represents a GitHub organization with a global workflow
    file and reference. *)
Record ProjectManager : Type := {
  organization : string;
  projectID : string;
  fields : gmap string ProjectFieldInfo;
  githubClient : option Client  (* a pointer: [None] is nil *)
}.

(* ===================================================================== *)
(** * The remote API and the effects of a call                            *)
(* ===================================================================== *)

(** A request sent to the API, with the bearer token it carries. *)
Inductive Call : Type :=
| QueryFields (token : string) (project : g4_ID)
| AddDraftIssue (token : string) (input : AddProjectV2DraftIssueInput)
| UpdateItemField (token : string) (input : UpdateProjectV2ItemFieldValueInput).

(** The API answers a request as a function of the requests it has seen:
    an error, or the decoded response. *)
Record Remote : Type := {
  serveQuery : list Call -> string -> g4_ID -> error + list FieldNode;
  serveAddDraft : list Call -> string -> AddProjectV2DraftIssueInput -> error + g4_ID;
  serveUpdate : list Call -> string -> UpdateProjectV2ItemFieldValueInput -> option error
}.

(** What a run leaves behind: the requests sent, oldest first, and the
    lines printed on standard output. *)
Record World : Type := { calls : list Call; stdout : list string }.

Definition World0 : World := {| calls := []; stdout := [] |}.

Definition M (A : Type) : Type := World -> A * World.

#[global] Instance M_ret : MRet M := fun A (a : A) w => (a, w).
#[global] Instance M_bind : MBind M :=
  fun A B (f : A -> M B) (m : M A) w => let '(a, w') := m w in f a w'.

Definition send (c : Call) : M unit :=
  fun w => (tt, {| calls := calls w ++ [c]; stdout := stdout w |}).

Definition seen : M (list Call) := fun w => (calls w, w).

Definition Printf (line : string) : M unit :=
  fun w => (tt, {| calls := calls w; stdout := stdout w ++ [line] |}).

Definition isUpdate (c : Call) : bool :=
  match c with UpdateItemField _ _ => true | _ => false end.

Definition isMutation (c : Call) : bool :=
  match c with QueryFields _ _ => false | _ => true end.

Section client.
Variable api : Remote.

(** [client.Query] with the query of [GetProjectFields]. *)
Definition Query (c : Client) (project : g4_ID) : M (error + list FieldNode) :=
  h ← seen;
  _ ← send (QueryFields (AccessToken c) project);
  mret (serveQuery api h (AccessToken c) project).

(** [client.Mutate] with [addProjectV2DraftIssue]; the result is the
    [ProjectItem.ID] of the response. *)
Definition MutateAddDraft (c : Client) (input : AddProjectV2DraftIssueInput)
  : M (error + g4_ID) :=
  h ← seen;
  _ ← send (AddDraftIssue (AccessToken c) input);
  mret (serveAddDraft api h (AccessToken c) input).

(** [client.Mutate] with [updateProjectV2ItemFieldValue]. *)
Definition MutateUpdate (c : Client) (input : UpdateProjectV2ItemFieldValueInput)
  : M (option error) :=
  h ← seen;
  _ ← send (UpdateItemField (AccessToken c) input);
  mret (serveUpdate api h (AccessToken c) input).
End client.

(** NewProjectManager creates a new ProjectManager. *)
Definition NewProjectManager (token : string) : ProjectManager :=
  {| organization := ORGANIZATION;
     projectID := PROJECT_ID;
     fields := ∅;
     githubClient := Some {| AccessToken := token |} |}.

(* ===================================================================== *)
(** * Field discovery                                                     *)
(* ===================================================================== *)

(** [options[string(opt.Name)] = opt.ID] for every option, in order. *)
Definition collectOptions (opts : list OptionNode) : gmap string g4_ID :=
  foldl (fun options opt => <[optName opt := optID opt]> options) ∅ opts.

(** The loop over [query.Node.ProjectV2.Fields.Nodes]. *)
Fixpoint collectFields (nodes : list FieldNode) (fields : list ProjectFieldInfo)
  : list ProjectFieldInfo :=
  match nodes with
  | [] => fields
  | node :: rest =>
      if String.eqb (Typename node) "ProjectV2SingleSelectField" then
        let f := ProjectV2SingleSelectField node in
        collectFields rest
          (fields ++ [{| ID := ssID f; Name := ssName f;
                         Options := collectOptions (ssOptions f) |}])
      else if String.eqb (Typename node) "ProjectV2IterationField" then
        let f := ProjectV2IterationField node in
        collectFields rest
          (fields ++ [{| ID := itID f; Name := itName f; Options := ∅ |}])
      else collectFields rest fields  (* continue *)
  end.

(** GetProjectFields queries the project fields and their options. *)
Definition GetProjectFields (api : Remote) (g : ProjectManager)
  : M (error + list ProjectFieldInfo) :=
  match githubClient g with
  | None => mret (inl (errors_New "github GraphQL client is nil"))
  | Some client =>
      res ← Query api client (strID (projectID g));
      match res with
      | inl err => mret (inl (fmt_Errorf_w "failed to query project fields: " err))
      | inr nodes => mret (inr (collectFields nodes []))
      end
  end.

(* ===================================================================== *)
(** * Field resolution and the draft-item creator                         *)
(* ===================================================================== *)

(** The four [for optName, optID := range field.Options] loops. *)
Inductive RangeSite : Type := RangeRelease | RangeView | RangeBoard | RangeStatus.

(** The variables [CreateDraftIssue] declares before its loop; all start
    as the nil interface. *)
Record Targets : Type := {
  k8sReleaseFieldID : g4_ID;
  viewFieldID : g4_ID;
  statusFieldID : g4_ID;
  boardFieldID : g4_ID;
  k8sReleaseValueID : g4_ID;
  viewValueID : g4_ID;
  statusValueID : g4_ID;
  boardValueID : g4_ID
}.

Definition Targets0 : Targets :=
  {| k8sReleaseFieldID := nilID; viewFieldID := nilID;
     statusFieldID := nilID; boardFieldID := nilID;
     k8sReleaseValueID := nilID; viewValueID := nilID;
     statusValueID := nilID; boardValueID := nilID |}.

(** One entry of [fieldUpdates]. *)
Record FieldUpdate : Type := {
  fieldID : g4_ID;
  optionID : g4_ID;
  fieldName : string
}.

(** The order in which a [range] visits the entries of a map is not fixed
    by Go: any order of the entries is possible, and it may differ between
    two loops over the same map. An order is valid for a map when it lists
    exactly the entries of the map. *)
Definition RangeOrder : Type :=
  RangeSite -> nat -> gmap string g4_ID -> list (string * g4_ID).

Definition validRange (rangeMap : RangeOrder) : Prop :=
  forall site i m, rangeMap site i m ≡ₚ map_to_list m.

(** A loop that assigns the ID of the first entry passing [test] and
    breaks; without such an entry the variable keeps its value. *)
Fixpoint firstMatch (test : string -> bool) (entries : list (string * g4_ID))
    (valueID : g4_ID) : g4_ID :=
  match entries with
  | [] => valueID
  | (optName, optID) :: rest =>
      if test optName then optID else firstMatch test rest valueID
  end.

(** The body of the loop that looks for the latest version, on the pair
    [(latestVersion, latestVersionID)]. *)
Definition latestStep (latest : string * g4_ID) (entry : string * g4_ID)
  : string * g4_ID :=
  let '(latestVersion, latestVersionID) := latest in
  let '(optName, optID) := entry in
  let version := extractVersion optName in
  if negb (String.eqb version "") then
    if String.eqb latestVersion "" || (compareVersions version latestVersion >? 0)
    then (version, optID)
    else latest
  else latest.

Definition latestOption (entries : list (string * g4_ID)) : string * g4_ID :=
  foldl latestStep ("", strID "") entries.

Section github.
(** [strings.ToLower]. *)
Variable ToLower : string -> string.
(** The visiting order of every [range] over a map. *)
Variable rangeMap : RangeOrder.
Variable api : Remote.

(** The K8s Release block of the loop body. *)
Definition resolveRelease (i : nat) (field : ProjectFieldInfo) (t : Targets)
  : Targets :=
  if GoStrings.Contains (ToLower (Name field)) "k8s release" then
    let '(_, latestVersionID) :=
      latestOption (rangeMap RangeRelease i (Options field)) in
    {| k8sReleaseFieldID := ID field;
       viewFieldID := viewFieldID t;
       statusFieldID := statusFieldID t;
       boardFieldID := boardFieldID t;
       k8sReleaseValueID :=
         if bool_decide (latestVersionID <> strID "")
         then latestVersionID else k8sReleaseValueID t;
       viewValueID := viewValueID t;
       statusValueID := statusValueID t;
       boardValueID := boardValueID t |}
  else t.

Definition viewTest (optName : string) : bool :=
  GoStrings.Contains (ToLower optName) "issue-tracking" ||
  GoStrings.Contains (ToLower optName) "issue tracking".

(** The view block. *)
Definition resolveView (i : nat) (field : ProjectFieldInfo) (t : Targets)
  : Targets :=
  if GoStrings.Contains (ToLower (Name field)) "view" then
    {| k8sReleaseFieldID := k8sReleaseFieldID t;
       viewFieldID := ID field;
       statusFieldID := statusFieldID t;
       boardFieldID := boardFieldID t;
       k8sReleaseValueID := k8sReleaseValueID t;
       viewValueID :=
         firstMatch viewTest (rangeMap RangeView i (Options field)) (viewValueID t);
       statusValueID := statusValueID t;
       boardValueID := boardValueID t |}
  else t.

Definition boardTest (board optName : string) : bool :=
  GoStrings.Contains board (ToLower optName).

(** The board block. *)
Definition resolveBoard (board : string) (i : nat) (field : ProjectFieldInfo)
    (t : Targets) : Targets :=
  if GoStrings.Contains (ToLower (Name field)) "board" then
    {| k8sReleaseFieldID := k8sReleaseFieldID t;
       viewFieldID := viewFieldID t;
       statusFieldID := statusFieldID t;
       boardFieldID := ID field;
       k8sReleaseValueID := k8sReleaseValueID t;
       viewValueID := viewValueID t;
       statusValueID := statusValueID t;
       boardValueID :=
         firstMatch (boardTest board) (rangeMap RangeBoard i (Options field))
           (boardValueID t) |}
  else t.

Definition statusTest (optName : string) : bool :=
  GoStrings.Contains (ToLower optName) "drafting" ||
  GoStrings.Contains (ToLower optName) "draft".

(** The Status block. *)
Definition resolveStatus (i : nat) (field : ProjectFieldInfo) (t : Targets)
  : Targets :=
  if GoStrings.Contains (ToLower (Name field)) "status" then
    {| k8sReleaseFieldID := k8sReleaseFieldID t;
       viewFieldID := viewFieldID t;
       statusFieldID := ID field;
       boardFieldID := boardFieldID t;
       k8sReleaseValueID := k8sReleaseValueID t;
       viewValueID := viewValueID t;
       statusValueID :=
         firstMatch statusTest (rangeMap RangeStatus i (Options field))
           (statusValueID t);
       boardValueID := boardValueID t |}
  else t.

(** One iteration of [for _, field := range fields]; [i] is the index of
    the field. *)
Definition resolveField (board : string) (i : nat) (field : ProjectFieldInfo)
    (t : Targets) : Targets :=
  resolveStatus i field
    (resolveBoard board i field
       (resolveView i field
          (resolveRelease i field t))).

Fixpoint resolveFrom (board : string) (i : nat) (fields : list ProjectFieldInfo)
    (t : Targets) : Targets :=
  match fields with
  | [] => t
  | field :: rest => resolveFrom board (S i) rest (resolveField board i field t)
  end.

Definition resolveFields (board : string) (fields : list ProjectFieldInfo)
  : Targets :=
  resolveFrom board 0 fields Targets0.

Definition fieldUpdates (t : Targets) : list FieldUpdate :=
  [ {| fieldID := k8sReleaseFieldID t; optionID := k8sReleaseValueID t;
       fieldName := "K8s Release" |};
    {| fieldID := viewFieldID t; optionID := viewValueID t;
       fieldName := "View" |};
    {| fieldID := statusFieldID t; optionID := statusValueID t;
       fieldName := "Status" |};
    {| fieldID := boardFieldID t; optionID := boardValueID t;
       fieldName := "Testgrid Board" |} ].

(** The guard [update.fieldID != "" && update.optionID != ""]. *)
Definition updateGuard (update : FieldUpdate) : bool :=
  bool_decide (fieldID update <> strID "") &&
  bool_decide (optionID update <> strID "").

Definition updateInput (g : ProjectManager) (itemID : g4_ID) (update : FieldUpdate)
  : UpdateProjectV2ItemFieldValueInput :=
  {| updProjectID := strID (projectID g);
     updItemID := itemID;
     updFieldID := fieldID update;
     updSingleSelectOptionID := Some (Sprintf_s (optionID update)) |}.

Definition warning (update : FieldUpdate) (err : error) : string :=
  "Warning: failed to update " +:+ fieldName update +:+ " field: " +:+
  Error err +:+ String "010" "".

(** The loop [for _, update := range fieldUpdates]. *)
Fixpoint applyUpdates (client : Client) (g : ProjectManager) (itemID : g4_ID)
    (updates : list FieldUpdate) : M unit :=
  match updates with
  | [] => mret tt
  | update :: rest =>
      _ ← (if updateGuard update then
             res ← MutateUpdate api client (updateInput g itemID update);
             match res with
             | Some err => Printf (warning update err)
             | None => mret tt
             end
           else mret tt);
      applyUpdates client g itemID rest
  end.

(** CreateDraftIssue creates a new issue draft issue in the board with a
    specific test issue template. The result is the returned [error];
    [None] is nil. *)
Definition CreateDraftIssue (g : ProjectManager) (title body board : string)
  : M (option error) :=
  match githubClient g with
  | None => mret (Some (errors_New "github GraphQL client is nil"))
  | Some client =>
      res ← GetProjectFields api g;
      match res with
      | inl err => mret (Some (fmt_Errorf_w "failed to get project fields: " err))
      | inr fields =>
          let t := resolveFields board fields in
          let inputDraft :=
            {| draftProjectID := strID (projectID g);
               draftTitle := title;
               draftBody := Some body |} in
          res ← MutateAddDraft api client inputDraft;
          match res with
          | inl err => mret (Some (fmt_Errorf_w "failed to create draft issue: " err))
          | inr itemID =>
              _ ← applyUpdates client g itemID (fieldUpdates t);
              mret None
          end
      end
  end.

End github.

(* ===================================================================== *)
(** * Example schemas and remotes                                         *)
(* ===================================================================== *)

Definition mkOption (name id : string) : OptionNode :=
  {| optID := strID id; optName := name |}.

Definition singleSelect (id name : string) (opts : list OptionNode) : FieldNode :=
  {| Typename := "ProjectV2SingleSelectField";
     ProjectV2SingleSelectField :=
       {| ssID := strID id; ssName := name; ssOptions := opts |};
     ProjectV2IterationField := {| itID := nilID; itName := "" |} |}.

Definition iteration (id name : string) : FieldNode :=
  {| Typename := "ProjectV2IterationField";
     ProjectV2SingleSelectField :=
       {| ssID := nilID; ssName := ""; ssOptions := [] |};
     ProjectV2IterationField := {| itID := strID id; itName := name |} |}.

Definition otherNode (typename : string) : FieldNode :=
  {| Typename := typename;
     ProjectV2SingleSelectField :=
       {| ssID := nilID; ssName := ""; ssOptions := [] |};
     ProjectV2IterationField := {| itID := nilID; itName := "" |} |}.

(** A project with the four fields the resolver looks for. *)
Definition boardSchema : list FieldNode :=
  [ otherNode "ProjectV2Field";
    singleSelect "F_rel" "K8s Release"
      [mkOption "v1.30" "id1"; mkOption "v1.32" "id2"; mkOption "stable" "id3"];
    singleSelect "F_view" "View"
      [mkOption "Issue-Tracking" "V_it"; mkOption "Other" "V_o"];
    iteration "F_iter" "Sprint";
    singleSelect "F_status" "Status"
      [mkOption "Drafting" "S_d"; mkOption "Done" "S_done"];
    singleSelect "F_board" "Testgrid Board"
      [mkOption "Master-Blocking" "B_b"; mkOption "Master-Informing" "B_i"] ].

(** Two valid visiting orders. *)
Definition rangeForward : RangeOrder := fun _ _ m => map_to_list m.
Definition rangeBackward : RangeOrder := fun _ _ m => reverse (map_to_list m).

(** A remote that serves [schema], creates the item ["ITEM"], and rejects
    every update of a field in [failing]. *)
Definition remoteOf (schema : list FieldNode) (failing : list g4_ID) : Remote :=
  {| serveQuery := fun _ _ _ => inr schema;
     serveAddDraft := fun _ _ _ => inr (strID "ITEM");
     serveUpdate := fun _ _ input =>
       if bool_decide (updFieldID input ∈ failing)
       then Some (errors_New "transport error")
       else None |}.

(** A release field whose two options carry the same version. *)
Definition tieSchema : list FieldNode :=
  [ singleSelect "F_rel" "K8s Release"
      [mkOption "v1.32" "idA"; mkOption "1.32" "idB"] ].

(** The options of the release field of the example of the description. *)
Definition releaseOptions : gmap string g4_ID :=
  collectOptions
    [mkOption "v1.30" "id1"; mkOption "v1.32" "id2"; mkOption "stable" "id3"].

(** Two fields whose names contain "board"; only the first has an option
    that occurs in the board string. *)
Definition twoBoardsSchema : list FieldNode :=
  [ singleSelect "F_board" "Testgrid Board" [mkOption "master-blocking" "B_b"];
    singleSelect "F_dash" "Dashboard" [mkOption "weekly" "D_w"] ].

(** Two fields for every role; for each role only the first field has an
    option that matches. *)
Definition pairedSchema : list FieldNode :=
  [ singleSelect "F_rel1" "K8s Release" [mkOption "v1.30" "R1"];
    singleSelect "F_rel2" "K8s Release Notes" [mkOption "stable" "R2"];
    singleSelect "F_view1" "View" [mkOption "Issue-Tracking" "V1"];
    singleSelect "F_view2" "Overview" [mkOption "other" "V2"];
    singleSelect "F_status1" "Status" [mkOption "Drafting" "S1"];
    singleSelect "F_status2" "Status Detail" [mkOption "done" "S2"];
    singleSelect "F_board1" "Testgrid Board" [mkOption "master-blocking" "B1"];
    singleSelect "F_board2" "Dashboard" [mkOption "weekly" "B2"] ].

(** The field and the option that an update request names. *)
Definition updatePairs (cs : list Call) : list (g4_ID * option string) :=
  cs ≫= fun c =>
    match c with
    | UpdateItemField _ input => [(updFieldID input, updSingleSelectOptionID input)]
    | _ => []
    end.

(** The release and board fields of [boardSchema], as discovered. *)
Definition releaseField : ProjectFieldInfo :=
  {| ID := strID "F_rel"; Name := "K8s Release"; Options := releaseOptions |}.

Definition boardField : ProjectFieldInfo :=
  {| ID := strID "F_board"; Name := "Testgrid Board";
     Options := collectOptions
       [mkOption "Master-Blocking" "B_b"; mkOption "Master-Informing" "B_i"] |}.

(** A manager that was not built by [NewProjectManager]: no client. *)
Definition unconfigured : ProjectManager :=
  {| organization := ORGANIZATION;
     projectID := PROJECT_ID;
     fields := ∅;
     githubClient := None |}.

(** A remote that turns away every request without a token. *)
Definition unauthorized : error :=
  errors_New "non-200 OK status code: 401 Unauthorized".

Definition guardedRemote (schema : list FieldNode) : Remote :=
  {| serveQuery := fun _ token _ =>
       if String.eqb token "" then inl unauthorized else inr schema;
     serveAddDraft := fun _ token _ =>
       if String.eqb token "" then inl unauthorized else inr (strID "ITEM");
     serveUpdate := fun _ token _ =>
       if String.eqb token "" then Some unauthorized else None |}.

(** A remote that serves [schema] and rejects the creation of the item. *)
Definition rejectingRemote (schema : list FieldNode) : Remote :=
  {| serveQuery := fun _ _ _ => inr schema;
     serveAddDraft := fun _ _ _ => inl (errors_New "validation error");
     serveUpdate := fun _ _ _ => None |}.

(* ===================================================================== *)
(** * The update protocol, in the words of its description                *)
(* ===================================================================== *)

(** The request that updates one field of the item. *)
Definition attempt (client : Client) (g : ProjectManager) (itemID : g4_ID)
    (update : FieldUpdate) : Call :=
  UpdateItemField (AccessToken client) (updateInput g itemID update).

(** The warnings printed when the updates [ups] are sent one after the
    other to a remote that has seen the requests [h]: one for every
    update the remote rejects. *)
Fixpoint warningsOf (api : Remote) (client : Client) (g : ProjectManager)
    (itemID : g4_ID) (h : list Call) (ups : list FieldUpdate) : list string :=
  match ups with
  | [] => []
  | update :: rest =>
      match serveUpdate api h (AccessToken client) (updateInput g itemID update) with
      | Some err => [warning update err]
      | None => []
      end ++ warningsOf api client g itemID (h ++ [attempt client g itemID update]) rest
  end.


(* ===================================================================== *)
(** * Field resolution, in the words of its description                   *)
(* ===================================================================== *)

(** Among the entries whose name yields a version, [(name, id)] has the
    highest one, and it is the first to have it: the versions before it
    are strictly lower, those after it are not higher. *)
Definition firstLatest (entries : list (string * g4_ID)) (name : string)
    (id : g4_ID) : Prop :=
  exists before after,
    entries = before ++ (name, id) :: after /\
    extractVersion name <> "" /\
    (forall e, e ∈ before -> extractVersion e.1 <> "" ->
       compareVersions (extractVersion e.1) (extractVersion name) < 0) /\
    (forall e, e ∈ after -> extractVersion e.1 <> "" ->
       compareVersions (extractVersion e.1) (extractVersion name) <= 0).

(** [(name, id)] is the first entry whose name passes [test]. *)
Definition firstPassing (test : string -> bool)
    (entries : list (string * g4_ID)) (name : string) (id : g4_ID) : Prop :=
  exists before after,
    entries = before ++ (name, id) :: after /\
    test name = true /\
    (forall e, e ∈ before -> test e.1 = false).

(* ===================================================================== *)
(** * Field discovery, in the words of its description                    *)
(* ===================================================================== *)

Definition recognised (node : FieldNode) : Prop :=
  Typename node = "ProjectV2SingleSelectField" \/
  Typename node = "ProjectV2IterationField".

#[global] Instance recognised_dec node : Decision (recognised node).
Proof. unfold recognised. apply _. Defined.

(** The identifier a name stands for in a list of options: that of the
    last option with the name. *)
Definition optionNamed (name : string) (opts : list OptionNode) : option g4_ID :=
  optID <$> last (filter (fun o => optName o = name) opts).

(** A child of the project node and the field it is reported as. *)
Inductive normalised (node : FieldNode) (f : ProjectFieldInfo) : Prop :=
| normalised_single :
    Typename node = "ProjectV2SingleSelectField" ->
    ID f = ssID (ProjectV2SingleSelectField node) ->
    Name f = ssName (ProjectV2SingleSelectField node) ->
    (forall name,
       Options f !! name =
       optionNamed name (ssOptions (ProjectV2SingleSelectField node))) ->
    normalised node f
| normalised_iteration :
    Typename node = "ProjectV2IterationField" ->
    ID f = itID (ProjectV2IterationField node) ->
    Name f = itName (ProjectV2IterationField node) ->
    Options f = ∅ ->
    normalised node f.

(* ===================================================================== *)
(** * The version order, in the words of its description                  *)
(* ===================================================================== *)

(** The [i]-th number [compareVersions] reads from the components. *)
Definition numAt (parts : list string) (i : nat) : Z :=
  if (i <? length parts)%nat then (strconv.Atoi (parts !!! i)).1 else 0.

(** Comparison of two integers as -1, 0 or 1. *)
Definition cmpZ (x y : Z) : Z :=
  if x >? y then 1 else if x <? y then -1 else 0.

Definition padTo (n : nat) (l : list Z) : list Z :=
  l ++ replicate (n - length l) 0.

Fixpoint firstNonzero (l : list Z) : Z :=
  match l with
  | [] => 0
  | x :: l' => if x =? 0 then firstNonzero l' else x
  end.

(** Split at the dots, parse every component with [parse], pad the shorter
    list with zeros to the length of the longer, compare position by
    position, and return the first comparison that is not 0. *)
Definition compareComponents (parse : string -> Z) (a b : string) : Z :=
  let ca := parse <$> GoStrings.Split a "." in
  let cb := parse <$> GoStrings.Split b "." in
  let n := (length ca `max` length cb)%nat in
  firstNonzero (zip_with cmpZ (padTo n ca) (padTo n cb)).

Definition allDigits (s : string) : bool :=
  forallb strconv.isDigit (list_ascii_of_string s).

Definition unsignedPart (c : string) : string :=
  match c with
  | String x rest => if strconv.isSign x then rest else c
  | EmptyString => c
  end.

Definition isNegative (c : string) : bool :=
  match c with
  | String x _ => Ascii.eqb x "-"
  | EmptyString => false
  end.

(** A decimal integer: an optional sign and at least one digit. *)
Definition numeric (c : string) : bool :=
  negb (String.eqb (unsignedPart c) "") && allDigits (unsignedPart c).

(** The value of the digits [s] starts with, read in base ten. *)
Fixpoint digitsValue (s : string) (acc : Z) : Z :=
  match s with
  | String x s' =>
      if strconv.isDigit x then digitsValue s' (acc * 10 + strconv.digitVal x)
      else acc
  | EmptyString => acc
  end.

Definition signedValue (c : string) : Z :=
  let v := digitsValue (unsignedPart c) 0 in
  if isNegative c then - v else v.

(** Components read as integers, anything that is not a number as 0. *)
Definition integerParse (c : string) : Z :=
  if numeric c then signedValue c else 0.

(** What [strconv.Atoi] leaves in its first result: the integer saturated
    to the range of [int]; 0 for text that is not a decimal integer,
    unless its leading digits already exceed 64 bits, which saturates as
    well. *)
Definition saturate (z : Z) : Z :=
  Z.max strconv.minInt (Z.min strconv.maxInt z).

Definition saturatingParse (c : string) : Z :=
  if numeric c || (2 ^ 64 <=? digitsValue (unsignedPart c) 0)
  then saturate (signedValue c) else 0.

(** The integer a component starts with lies in the range of [int]. *)
Definition inRange (c : string) : bool :=
  (strconv.minInt <=? signedValue c) && (signedValue c <=? strconv.maxInt).

(* ===================================================================== *)
(** * The version pattern, in the words of its description                *)
(* ===================================================================== *)

(** The longest run of digits [s] starts with, and what follows it. *)
Fixpoint takeDigits (s : string) : string :=
  match s with
  | String x s' => if strconv.isDigit x then String x (takeDigits s') else ""
  | EmptyString => ""
  end.

Fixpoint dropDigits (s : string) : string :=
  match s with
  | String x s' => if strconv.isDigit x then dropDigits s' else s
  | EmptyString => ""
  end.

(** [\d+] followed by [k]: the longest run first, then shorter ones. *)
Fixpoint digitRun (s : string) (caps : list string)
    (k : string -> list string -> option (list string)) : option (list string) :=
  match s with
  | String x s' =>
      if strconv.isDigit x then
        match digitRun s' caps k with
        | Some m => Some m
        | None => k s' caps
        end
      else None
  | EmptyString => None
  end.

(** [<digits>.<digits>] at the start of [t]: both runs of digits and the
    text after the second. *)
Definition versionAt (t : string) : option (string * string * string) :=
  if String.eqb (takeDigits t) "" then None
  else
    match dropDigits t with
    | String x s2 =>
        if Ascii.eqb x "." then
          if String.eqb (takeDigits s2) "" then None
          else Some (takeDigits t, takeDigits s2, dropDigits s2)
        else None
    | EmptyString => None
    end.

(** The same after an optional ["v"]. *)
Definition versionHere (s : string) : option (string * string * string) :=
  match
    match s with
    | String x s' => if Ascii.eqb x "v" then versionAt s' else None
    | EmptyString => None
    end
  with
  | Some r => Some r
  | None => versionAt s
  end.

(** [s] starts with an optional ["v"], the digits [d1], a dot and the
    digits [d2]. *)
Definition matchesAt (s d1 d2 : string) : Prop :=
  exists v rest,
    (v = "" \/ v = "v") /\ s = v +:+ d1 +:+ "." +:+ d2 +:+ rest /\
    d1 <> "" /\ d2 <> "" /\ allDigits d1 = true /\ allDigits d2 = true.

(* ===================================================================== *)
(** * Package [cmd]: the token and the dashboard fetch                    *)
(* ===================================================================== *)

(** [os.Getenv]: the value of the variable, empty when it is not set. *)
Definition Getenv (env : gmap string string) (key : string) : string :=
  default "" (env !! key).

(** The token lookup at the end of [init]. *)
Definition initToken (env : gmap string string) : string :=
  let token := Getenv env "SIGNALHOUND_GITHUB_TOKEN" in
  if String.eqb token "" then Getenv env "GITHUB_TOKEN" else token.

(** A request to TestGrid: the summaries of a dashboard, or the tests of
    one tab. *)
Inductive TGCall (Summary Statuses : Type) : Type :=
| SummaryCall (dashboard : string) (statuses : Statuses)
| TestsCall (summary : Summary) (minFailure minFlake : Z).

Arguments SummaryCall {Summary Statuses} dashboard statuses.
Arguments TestsCall {Summary Statuses} summary minFailure minFlake.

(** What a run of the command leaves behind: the requests sent to
    TestGrid, oldest first, and the lines printed. *)
Record CmdWorld (Summary Statuses : Type) : Type := {
  tgCalls : list (TGCall Summary Statuses);
  printed : list string
}.

Arguments tgCalls {Summary Statuses} _.
Arguments printed {Summary Statuses} _.
Arguments Build_CmdWorld {Summary Statuses} _ _.

Definition CM (Summary Statuses : Type) (A : Type) : Type :=
  CmdWorld Summary Statuses -> A * CmdWorld Summary Statuses.

#[global] Instance CM_ret Summary Statuses : MRet (CM Summary Statuses) :=
  fun A (a : A) w => (a, w).
#[global] Instance CM_bind Summary Statuses : MBind (CM Summary Statuses) :=
  fun A B (f : A -> CM Summary Statuses B) (m : CM Summary Statuses A) w =>
    let '(a, w') := m w in f a w'.

(** The TestGrid client [tg]: it answers a request as a function of the
    requests it has seen. The types of package [v1alpha1] and the constant
    [ERROR_STATUSES] are parameters. *)
Record TestGrid (Summary Tab Statuses : Type) : Type := {
  serveTabSummary :
    list (TGCall Summary Statuses) -> string -> Statuses -> error + list Summary;
  serveTabTests :
    list (TGCall Summary Statuses) -> Summary -> Z -> Z -> error + Tab
}.

Arguments serveTabSummary {Summary Tab Statuses} _ _ _ _.
Arguments serveTabTests {Summary Tab Statuses} _ _ _ _ _.

Definition isSummaryCall {Summary Statuses} (c : TGCall Summary Statuses) : bool :=
  match c with SummaryCall _ _ => true | TestsCall _ _ _ => false end.

Section cmd.
Context {Summary Tab TestRun Statuses : Type}.
Variable TestRuns : Tab -> list TestRun.
Variable ERROR_STATUSES : Statuses.
Variable tg : TestGrid Summary Tab Statuses.
(** The package variables the flags set. *)
Variables minFailure minFlake : Z.

(** [tg.FetchTabSummary(dashboard, statuses)]. *)
Definition tgFetchTabSummary (dashboard : string) (statuses : Statuses)
  : CM Summary Statuses (error + list Summary) :=
  fun w =>
    (serveTabSummary tg (tgCalls w) dashboard statuses,
     {| tgCalls := tgCalls w ++ [SummaryCall dashboard statuses];
        printed := printed w |}).

(** [tg.FetchTabTests(&dashSummary, minFailure, minFlake)]; an answer
    without an error carries a tab. *)
Definition tgFetchTabTests (summary : Summary) (minFailure' minFlake' : Z)
  : CM Summary Statuses (error + Tab) :=
  fun w =>
    (serveTabTests tg (tgCalls w) summary minFailure' minFlake',
     {| tgCalls := tgCalls w ++ [TestsCall summary minFailure' minFlake'];
        printed := printed w |}).

(** [fmt.Println]. *)
Definition Println (line : string) : CM Summary Statuses unit :=
  fun w => (tt, {| tgCalls := tgCalls w;
                   printed := printed w ++ [line +:+ String "010" ""] |}).

(** The loop [for _, dashSummary := range dashSummaries]. *)
Fixpoint tabsLoop (dashSummaries : list Summary) (dashboardTabs : list Tab)
  : CM Summary Statuses (list Tab) :=
  match dashSummaries with
  | [] => mret dashboardTabs
  | dashSummary :: rest =>
      res ← tgFetchTabTests dashSummary minFailure minFlake;
      match res with
      | inl err =>
          _ ← Println ("error fetching table : " +:+ Error err);
          tabsLoop rest dashboardTabs  (* continue *)
      | inr dashTab =>
          if (0 <? length (TestRuns dashTab))%nat
          then tabsLoop rest (dashboardTabs ++ [dashTab])
          else tabsLoop rest dashboardTabs
      end
  end.

(** The loop [for _, dashboard := range []string{...}]. *)
Fixpoint dashboardsLoop (dashboards : list string) (dashboardTabs : list Tab)
  : CM Summary Statuses (error + list Tab) :=
  match dashboards with
  | [] => mret (inr dashboardTabs)
  | dashboard :: rest =>
      res ← tgFetchTabSummary dashboard ERROR_STATUSES;
      match res with
      | inl err => mret (inl err)
      | inr dashSummaries =>
          tabs ← tabsLoop dashSummaries dashboardTabs;
          dashboardsLoop rest tabs
      end
  end.

(** FetchTabSummary fetches all dashboard tabs from TestGrid. *)
Definition FetchTabSummary : CM Summary Statuses (error + list Tab) :=
  dashboardsLoop
    ["sig-release-master-blocking"; "sig-release-master-informing"] [].

End cmd.

(** A TestGrid with one failing tab per dashboard: tabs are named, and a
    tab whose name starts with "bad" cannot be fetched. *)
Definition exampleGrid : TestGrid string (string * list nat) unit :=
  {| serveTabSummary := fun _ dashboard _ =>
       inr [dashboard +:+ "/gce"; "bad/" +:+ dashboard; dashboard +:+ "/idle"];
     serveTabTests := fun _ summary _ _ =>
       if String.prefix "bad" summary then inl (errors_New "no such tab")
       else if GoStrings.Contains summary "idle" then inr (summary, [])
       else inr (summary, [1%nat; 2%nat]) |}.

(** A TestGrid whose second dashboard cannot be listed. *)
Definition brokenGrid : TestGrid string (string * list nat) unit :=
  {| serveTabSummary := fun _ dashboard _ =>
       if GoStrings.Contains dashboard "informing"
       then inl (errors_New "testgrid unavailable")
       else inr [dashboard +:+ "/gce"];
     serveTabTests := fun _ summary _ _ => inr (summary, [1%nat]) |}.

Definition CmdWorld0 : CmdWorld string unit := {| tgCalls := []; printed := [] |}.

(* ===================================================================== *)
(** * Reading aids for the properties of the whole run                    *)
(* ===================================================================== *)

(** The identifier of the last field whose lower-cased name contains
    [sub]; the nil interface when there is none. *)
Definition lastMatching (ToLower : string -> string) (sub : string)
    (fields : list ProjectFieldInfo) : g4_ID :=
  match last (List.filter
                (fun f => GoStrings.Contains (ToLower (Name f)) sub) fields) with
  | Some f => ID f
  | None => nilID
  end.

(** Two resolutions agree on everything but the Board value. *)
Definition agreeExceptBoardValue (t t' : Targets) : Prop :=
  k8sReleaseFieldID t = k8sReleaseFieldID t' /\
  k8sReleaseValueID t = k8sReleaseValueID t' /\
  viewFieldID t = viewFieldID t' /\
  viewValueID t = viewValueID t' /\
  statusFieldID t = statusFieldID t' /\
  statusValueID t = statusValueID t' /\
  boardFieldID t = boardFieldID t'.

Definition isCreate (c : Call) : bool :=
  match c with AddDraftIssue _ _ => true | _ => false end.

(** An environment with the fallback variable only, and one with both. *)
Definition envFallback : gmap string string :=
  {[ "GITHUB_TOKEN" := "ghp_fallback" ]}.

Definition envBoth : gmap string string :=
  <[ "SIGNALHOUND_GITHUB_TOKEN" := "ghp_primary" ]> envFallback.

(* ===================================================================== *)
(** * Properties of the version order                                     *)
(* ===================================================================== *)

Lemma loop_numAt parts1 parts2 n i :
  compareVersions_loop parts1 parts2 (S n) i =
    if numAt parts1 i >? numAt parts2 i then 1
    else if numAt parts1 i <? numAt parts2 i then -1
    else compareVersions_loop parts1 parts2 n (S i).
Proof. reflexivity. Qed.

Lemma numAt_ge parts i : (length parts <= i)%nat -> numAt parts i = 0.
Proof.
  intros H. unfold numAt.
  destruct (Nat.ltb_spec i (length parts)); [lia | reflexivity].
Qed.

Lemma loop_refl parts n i : compareVersions_loop parts parts n i = 0.
Proof.
  revert i. induction n as [|n IH]; intros i; [reflexivity|].
  rewrite loop_numAt.
  destruct (Z.gtb_spec (numAt parts i) (numAt parts i)); [lia|].
  destruct (Z.ltb_spec (numAt parts i) (numAt parts i)); [lia|].
  apply IH.
Qed.

Lemma loop_opp parts1 parts2 n i :
  compareVersions_loop parts1 parts2 n i =
  - compareVersions_loop parts2 parts1 n i.
Proof.
  revert i. induction n as [|n IH]; intros i; [reflexivity|].
  rewrite !loop_numAt.
  destruct (Z.gtb_spec (numAt parts1 i) (numAt parts2 i)),
           (Z.ltb_spec (numAt parts1 i) (numAt parts2 i)),
           (Z.gtb_spec (numAt parts2 i) (numAt parts1 i)),
           (Z.ltb_spec (numAt parts2 i) (numAt parts1 i)); try lia.
  apply IH.
Qed.

(** Running the loop past the end of both lists changes nothing. *)
Lemma loop_past parts1 parts2 n i :
  (length parts1 <= i)%nat -> (length parts2 <= i)%nat ->
  compareVersions_loop parts1 parts2 n i = 0.
Proof.
  revert i. induction n as [|n IH]; intros i H1 H2; [reflexivity|].
  rewrite loop_numAt, !numAt_ge by lia. simpl. apply IH; lia.
Qed.

Lemma loop_extend parts1 parts2 n k i :
  (length parts1 <= n + i)%nat -> (length parts2 <= n + i)%nat ->
  compareVersions_loop parts1 parts2 (n + k) i =
  compareVersions_loop parts1 parts2 n i.
Proof.
  revert i. induction n as [|n IH]; intros i H1 H2.
  - simpl. apply loop_past; lia.
  - change (S n + k)%nat with (S (n + k)). rewrite !loop_numAt.
    rewrite IH by lia. reflexivity.
Qed.

Lemma loop_range parts1 parts2 n i :
  compareVersions_loop parts1 parts2 n i = -1 \/
  compareVersions_loop parts1 parts2 n i = 0 \/
  compareVersions_loop parts1 parts2 n i = 1.
Proof.
  revert i. induction n as [|n IH]; intros i; [auto|].
  rewrite loop_numAt.
  destruct (_ >? _); [auto|]. destruct (_ <? _); auto.
Qed.

Lemma loop_trans parts1 parts2 parts3 n i :
  compareVersions_loop parts1 parts2 n i <= 0 ->
  compareVersions_loop parts2 parts3 n i <= 0 ->
  compareVersions_loop parts1 parts3 n i <= 0.
Proof.
  revert i. induction n as [|n IH]; intros i; [simpl; lia|].
  rewrite !loop_numAt.
  destruct (Z.gtb_spec (numAt parts1 i) (numAt parts2 i)); [lia|].
  destruct (Z.gtb_spec (numAt parts2 i) (numAt parts3 i)).
  { destruct (Z.ltb_spec (numAt parts1 i) (numAt parts2 i)); lia. }
  destruct (Z.ltb_spec (numAt parts1 i) (numAt parts2 i)),
           (Z.ltb_spec (numAt parts2 i) (numAt parts3 i)),
           (Z.gtb_spec (numAt parts1 i) (numAt parts3 i)),
           (Z.ltb_spec (numAt parts1 i) (numAt parts3 i)); try lia.
  apply IH.
Qed.

(** [compareVersions] with the loop bound made explicit. *)
Lemma compareVersions_unfold v1 v2 :
  compareVersions v1 v2 =
  compareVersions_loop (GoStrings.Split v1 ".") (GoStrings.Split v2 ".")
    (length (GoStrings.Split v1 ".") `max` length (GoStrings.Split v2 ".")) 0.
Proof.
  unfold compareVersions. f_equal.
  destruct (Nat.ltb_spec (length (GoStrings.Split v1 "."))
                         (length (GoStrings.Split v2 "."))); lia.
Qed.

Lemma compareVersions_bound v1 v2 n :
  (length (GoStrings.Split v1 ".") <= n)%nat ->
  (length (GoStrings.Split v2 ".") <= n)%nat ->
  compareVersions v1 v2 =
  compareVersions_loop (GoStrings.Split v1 ".") (GoStrings.Split v2 ".") n 0.
Proof.
  intros H1 H2. rewrite compareVersions_unfold.
  set (m := (_ `max` _)%nat).
  replace n with (m + (n - m))%nat by lia.
  symmetry. apply loop_extend; lia.
Qed.

Lemma compareVersions_refl a : compareVersions a a = 0.
Proof. rewrite compareVersions_unfold. apply loop_refl. Qed.

Lemma compareVersions_opp a b : compareVersions a b = - compareVersions b a.
Proof.
  rewrite !compareVersions_unfold, (Nat.max_comm (length (GoStrings.Split b "."))).
  apply loop_opp.
Qed.

Lemma compareVersions_range a b :
  compareVersions a b = -1 \/ compareVersions a b = 0 \/ compareVersions a b = 1.
Proof. rewrite compareVersions_unfold. apply loop_range. Qed.

Lemma compareVersions_trans a b c :
  compareVersions a b <= 0 -> compareVersions b c <= 0 ->
  compareVersions a c <= 0.
Proof.
  set (n := (length (GoStrings.Split a ".") `max`
             (length (GoStrings.Split b ".") `max`
              length (GoStrings.Split c ".")))%nat).
  rewrite (compareVersions_bound a b n), (compareVersions_bound b c n),
          (compareVersions_bound a c n) by lia.
  apply loop_trans.
Qed.

(** C7. [compareVersions] orders version strings totally: every string is
    equal to itself, swapping the arguments negates the result, and the
    relation "[compareVersions] is at most 0" is transitive. This holds
    for all strings, hence for the well-formed dotted-numeric ones. *)
Theorem compareVersions_total_order (a b c : string) :
  compareVersions a a = 0 /\
  compareVersions a b = - compareVersions b a /\
  (compareVersions a b <= 0 -> compareVersions b c <= 0 ->
   compareVersions a c <= 0).
Proof.
  split; [apply compareVersions_refl|].
  split; [apply compareVersions_opp|apply compareVersions_trans].
Qed.

Lemma compareVersions_total_order_witness :
  compareVersions "1.30" "1.30" = 0 /\
  compareVersions "1.30" "1.31" = - compareVersions "1.31" "1.30" /\
  compareVersions "1.30" "1.32" <= 0.
Proof.
  destruct (compareVersions_total_order "1.30" "1.31" "1.32") as (H1 & H2 & H3).
  split; [exact H1|]. split; [exact H2|].
  apply H3; vm_compute; discriminate.
Defined.

(** ** [strconv.Atoi] as a saturating parser *)

Lemma digitsValue_ge s acc : 0 <= acc -> acc <= digitsValue s acc.
Proof.
  revert acc. induction s as [|x s IH]; intros acc Hacc; simpl; [lia|].
  destruct (strconv.isDigit x) eqn:Hx; [|lia].
  assert (0 <= strconv.digitVal x).
  { unfold strconv.isDigit in Hx. unfold strconv.digitVal.
    apply andb_true_iff in Hx as [Hx _]. apply N.leb_le in Hx. lia. }
  specialize (IH (acc * 10 + strconv.digitVal x)). lia.
Qed.

Lemma digitVal_range x :
  strconv.isDigit x = true -> 0 <= strconv.digitVal x <= 9.
Proof.
  unfold strconv.isDigit, strconv.digitVal. intros Hx.
  apply andb_true_iff in Hx as [H1 H2].
  apply N.leb_le in H1, H2. lia.
Qed.

Lemma digitsValue_lt s acc :
  0 <= acc -> digitsValue s acc < (acc + 1) * 10 ^ Z.of_nat (String.length s).
Proof.
  revert acc. induction s as [|x s IH]; intros acc Hacc.
  - simpl. lia.
  - cbn [digitsValue String.length]. rewrite Nat2Z.inj_succ, Z.pow_succ_r by lia.
    assert (0 < 10 ^ Z.of_nat (String.length s)) by (apply Z.pow_pos_nonneg; lia).
    destruct (strconv.isDigit x) eqn:Hx.
    + pose proof (digitVal_range x Hx).
      specialize (IH (acc * 10 + strconv.digitVal x) ltac:(lia)). nia.
    + nia.
Qed.

Lemma fastLoop_spec s n :
  strconv.fastLoop s n = if allDigits s then Some (digitsValue s n) else None.
Proof.
  revert n. induction s as [|x s IH]; intros n; [reflexivity|].
  unfold allDigits in *. cbn [strconv.fastLoop digitsValue list_ascii_of_string forallb].
  destruct (strconv.isDigit x); [apply IH|reflexivity].
Qed.

Lemma parseUintLoop_spec s n :
  0 <= n <= strconv.maxUint64 ->
  strconv.parseUintLoop s n =
    if 2 ^ 64 <=? digitsValue s n then (strconv.maxUint64, Some strconv.ErrRange)
    else if allDigits s then (digitsValue s n, None)
    else (0, Some strconv.ErrSyntax).
Proof.
  unfold strconv.maxUint64. change (2 ^ 64) with 18446744073709551616.
  revert n. induction s as [|x s IH]; intros n Hn.
  - simpl. destruct (Z.leb_spec 18446744073709551616 n); [lia|reflexivity].
  - unfold allDigits in *.
    cbn [strconv.parseUintLoop digitsValue list_ascii_of_string forallb].
    destruct (strconv.isDigit x) eqn:Hx; cbn [andb].
    + pose proof (digitVal_range x Hx) as Hd.
      unfold strconv.maxUint64. change (2 ^ 64) with 18446744073709551616.
      change ((18446744073709551616 - 1) `div` 10 + 1) with 1844674407370955162.
      pose proof (digitsValue_ge s (n * 10 + strconv.digitVal x) ltac:(lia)) as Hge.
      destruct (Z.geb_spec n 1844674407370955162).
      { destruct (Z.leb_spec 18446744073709551616
                    (digitsValue s (n * 10 + strconv.digitVal x))); [reflexivity|lia]. }
      destruct (Z.le_gt_cases 18446744073709551616 (n * 10 + strconv.digitVal x)) as [Hov|Hok].
      * replace ((n * 10 + strconv.digitVal x) `mod` 18446744073709551616)
          with (n * 10 + strconv.digitVal x - 18446744073709551616).
        2:{ apply Z.mod_unique with 1; lia. }
        destruct (Z.ltb_spec (n * 10 + strconv.digitVal x - 18446744073709551616) (n * 10));
          [|lia].
        cbn [orb].
        destruct (Z.leb_spec 18446744073709551616
                    (digitsValue s (n * 10 + strconv.digitVal x))); [reflexivity|lia].
      * rewrite Z.mod_small by lia.
        destruct (Z.ltb_spec (n * 10 + strconv.digitVal x) (n * 10)); [lia|].
        destruct (Z.gtb_spec (n * 10 + strconv.digitVal x) (18446744073709551616 - 1)); [lia|].
        cbn [orb]. apply IH. lia.
    + destruct (Z.leb_spec 18446744073709551616 n); [lia|reflexivity].
Qed.

Lemma ParseUint_spec s :
  strconv.ParseUint s =
    if 2 ^ 64 <=? digitsValue s 0 then (strconv.maxUint64, Some strconv.ErrRange)
    else if negb (String.eqb s "") && allDigits s then (digitsValue s 0, None)
    else (0, Some strconv.ErrSyntax).
Proof.
  destruct s as [|x s]; [reflexivity|].
  unfold strconv.ParseUint. rewrite parseUintLoop_spec by (unfold strconv.maxUint64; lia).
  reflexivity.
Qed.

Lemma wrap64_small z : - 2 ^ 63 <= z < 2 ^ 63 -> strconv.wrap64 z = z.
Proof.
  intros Hz. unfold strconv.wrap64.
  change (2 ^ 63) with 9223372036854775808 in *.
  change (2 ^ 64) with 18446744073709551616.
  rewrite Z.mod_small by lia. lia.
Qed.

Lemma ParseInt_spec c :
  (strconv.ParseInt c).1 = saturatingParse c.
Proof.
  unfold saturatingParse, numeric, signedValue, saturate, strconv.minInt, strconv.maxInt,
    strconv.intSize.
  destruct c as [|c0 rest]; [reflexivity|].
  unfold strconv.ParseInt. cbn [unsignedPart isNegative].
  set (s1 := if strconv.isSign c0 then rest else String c0 rest).
  rewrite ParseUint_spec.
  pose proof (digitsValue_ge s1 0 ltac:(lia)) as Hge.
  set (v := digitsValue s1 0) in *.
  unfold strconv.intSize, strconv.maxUint64.
  change (2 ^ (64 - 1)) with 9223372036854775808.
  change (2 ^ 64) with 18446744073709551616.
  destruct (Z.leb_spec 18446744073709551616 v) as [Hbig|Hsmall].
  - rewrite orb_true_r. cbn [fst snd].
    destruct (Ascii.eqb c0 "-"); cbn [negb andb fst].
    + change (18446744073709551616 - 1 >? 9223372036854775808) with true.
      cbn [fst]. lia.
    + change (18446744073709551616 - 1 >=? 9223372036854775808) with true.
      cbn [fst]. lia.
  - rewrite orb_false_r.
    destruct (negb (String.eqb s1 "") && allDigits s1); [|reflexivity].
    destruct (Ascii.eqb c0 "-"); cbn [negb andb].
    + destruct (Z.gtb_spec v 9223372036854775808); cbn [fst]; [lia|].
      destruct (Z.eq_dec v 9223372036854775808) as [->|Hne].
      * vm_compute. reflexivity.
      * rewrite (wrap64_small v)
          by (change (2 ^ 63) with 9223372036854775808; lia).
        rewrite wrap64_small
          by (change (2 ^ 63) with 9223372036854775808; lia).
        lia.
    + destruct (Z.geb_spec v 9223372036854775808); cbn [fst]; [lia|].
      rewrite wrap64_small by (change (2 ^ 63) with 9223372036854775808; lia). lia.
Qed.

Lemma Atoi_saturating c : (strconv.Atoi c).1 = saturatingParse c.
Proof.
  unfold strconv.Atoi.
  destruct ((0 <? String.length c)%nat && (String.length c <? 19)%nat) eqn:Hlen;
    [|apply ParseInt_spec].
  apply andb_true_iff in Hlen as [_ Hlen]. apply Nat.ltb_lt in Hlen.
  unfold saturatingParse, numeric, signedValue, saturate, strconv.minInt, strconv.maxInt,
    strconv.intSize.
  destruct c as [|c0 rest]; [reflexivity|].
  cbn [unsignedPart isNegative].
  set (s1 := if strconv.isSign c0 then rest else String c0 rest).
  assert (Hl1 : (String.length s1 <= 18)%nat).
  { subst s1. destruct (strconv.isSign c0); simpl in *; lia. }
  pose proof (digitsValue_ge s1 0 ltac:(lia)) as Hge.
  pose proof (digitsValue_lt s1 0 ltac:(lia)) as Hlt.
  assert (10 ^ Z.of_nat (String.length s1) <= 10 ^ 18)
    by (apply Z.pow_le_mono_r; lia).
  set (v := digitsValue s1 0) in *.
  change (10 ^ 18) with 1000000000000000000 in *.
  change (2 ^ (64 - 1)) with 9223372036854775808.
  change (2 ^ 64) with 18446744073709551616.
  destruct (Z.leb_spec 18446744073709551616 v) as [Hbig|_]; [lia|].
  rewrite orb_false_r.
  assert (Hm : forall (A : Type) (x y : A),
             match s1 with EmptyString => x | String _ _ => y end =
             if String.eqb s1 "" then x else y) by (intros; destruct s1; reflexivity).
  rewrite Hm, fastLoop_spec. fold v.
  destruct (String.eqb s1 ""); [reflexivity|]. cbn [negb andb].
  destruct (allDigits s1); [|reflexivity].
  destruct (Ascii.eqb c0 "-"); cbn [fst]; lia.
Qed.

(** ** The loop against the description *)

Lemma numAt_lookup parts i :
  numAt parts i = default 0 (((fun c => (strconv.Atoi c).1) <$> parts) !! i).
Proof.
  unfold numAt. rewrite list_lookup_fmap.
  destruct (Nat.ltb_spec i (length parts)) as [Hi|Hi].
  - destruct (lookup_lt_is_Some_2 parts i Hi) as [x Hx].
    rewrite (list_lookup_total_correct _ _ _ Hx), Hx. reflexivity.
  - rewrite (lookup_ge_None_2 parts i) by lia. reflexivity.
Qed.

Lemma loop_firstNonzero parts1 parts2 n i :
  compareVersions_loop parts1 parts2 n i =
  firstNonzero ((fun j => cmpZ (numAt parts1 j) (numAt parts2 j)) <$> seq i n).
Proof.
  revert i. induction n as [|n IH]; intros i; [reflexivity|].
  rewrite loop_numAt. cbn [seq fmap list_fmap firstNonzero]. unfold cmpZ at 1 3.
  destruct (_ >? _); [reflexivity|]. destruct (_ <? _); [reflexivity|].
  simpl. apply IH.
Qed.

Lemma padTo_lookup n (l : list Z) j :
  (length l <= n)%nat -> (j < n)%nat ->
  padTo n l !! j = Some (default 0 (l !! j)).
Proof.
  intros Hl Hj. unfold padTo.
  destruct (Nat.lt_ge_cases j (length l)) as [H|H].
  - rewrite lookup_app_l by lia.
    destruct (lookup_lt_is_Some_2 l j H) as [x ->]. reflexivity.
  - rewrite lookup_app_r by lia. rewrite (lookup_ge_None_2 l j) by lia.
    rewrite lookup_replicate_2 by lia. reflexivity.
Qed.

Lemma padTo_length n (l : list Z) : (length l <= n)%nat -> length (padTo n l) = n.
Proof. intros H. unfold padTo. rewrite length_app, length_replicate. lia. Qed.

Lemma zip_padTo n (k1 k2 : list Z) :
  (length k1 <= n)%nat -> (length k2 <= n)%nat ->
  zip_with cmpZ (padTo n k1) (padTo n k2) =
  (fun j => cmpZ (default 0 (k1 !! j)) (default 0 (k2 !! j))) <$> seq 0 n.
Proof.
  intros H1 H2. apply list_eq. intros j.
  rewrite lookup_zip_with, list_lookup_fmap.
  destruct (Nat.lt_ge_cases j n) as [Hj|Hj].
  - rewrite !padTo_lookup by lia. rewrite lookup_seq_lt by lia. reflexivity.
  - rewrite (lookup_ge_None_2 (padTo n k1)) by (rewrite padTo_length; lia).
    rewrite lookup_seq_ge by lia. reflexivity.
Qed.

Lemma compareVersions_components a b :
  compareVersions a b = compareComponents (fun c => (strconv.Atoi c).1) a b.
Proof.
  rewrite compareVersions_unfold, loop_firstNonzero. unfold compareComponents.
  rewrite !length_fmap, zip_padTo by (rewrite length_fmap; lia).
  f_equal. apply list_fmap_ext. intros _ j _.
  rewrite !numAt_lookup. reflexivity.
Qed.

Lemma compareComponents_ext f g a b :
  (forall c, f c = g c) -> compareComponents f a b = compareComponents g a b.
Proof.
  intros H. unfold compareComponents.
  rewrite !(list_fmap_ext f g _ (fun _ x _ => H x)). reflexivity.
Qed.

Lemma saturatingParse_inRange c :
  inRange c = true -> saturatingParse c = integerParse c.
Proof.
  unfold inRange, saturatingParse, integerParse, saturate, signedValue.
  unfold strconv.minInt, strconv.maxInt, strconv.intSize.
  change (2 ^ (64 - 1)) with 9223372036854775808.
  change (2 ^ 64) with 18446744073709551616.
  intros H. apply andb_true_iff in H as [H1 H2].
  apply Z.leb_le in H1, H2.
  pose proof (digitsValue_ge (unsignedPart c) 0 ltac:(lia)) as Hge.
  destruct (Z.leb_spec 18446744073709551616 (digitsValue (unsignedPart c) 0)).
  { destruct (isNegative c); lia. }
  rewrite orb_false_r. destruct (numeric c); [|reflexivity].
  destruct (isNegative c); lia.
Qed.

Lemma compareComponents_inRange a b :
  forallb inRange (GoStrings.Split a "." ++ GoStrings.Split b ".") = true ->
  compareComponents saturatingParse a b = compareComponents integerParse a b.
Proof.
  intros H. rewrite forallb_app in H. apply andb_true_iff in H as [Ha Hb].
  rewrite forallb_forall in Ha, Hb.
  unfold compareComponents.
  rewrite (list_fmap_ext saturatingParse integerParse (GoStrings.Split a ".")),
          (list_fmap_ext saturatingParse integerParse (GoStrings.Split b ".")).
  - reflexivity.
  - intros i c Hc. apply saturatingParse_inRange, Hb.
    apply list_elem_of_In. eapply list_elem_of_lookup_2, Hc.
  - intros i c Hc. apply saturatingParse_inRange, Ha.
    apply list_elem_of_In. eapply list_elem_of_lookup_2, Hc.
Qed.

(** C6, as the code has it. [compareVersions] splits both strings at the
    dots, parses every component with [strconv.Atoi] and drops the error,
    pads the shorter list with zeros, compares position by position and
    returns the first comparison that is not 0. A component therefore
    counts as the decimal integer it spells, saturated to the range of
    [int]; text that is not a decimal integer counts as 0 (and saturates
    too when its leading digits exceed 64 bits). When the integer every
    component starts with fits in [int], this is the comparison of the
    components as integers, with 0 for the components that are no
    number. *)
Theorem compareVersions_saturating (a b : string) :
  compareVersions a b = compareComponents saturatingParse a b /\
  (forallb inRange (GoStrings.Split a "." ++ GoStrings.Split b ".") = true ->
   compareVersions a b = compareComponents integerParse a b) /\
  compareVersions "1.32" "1.4" = 1 /\
  compareVersions "1.30" "1.30.0" = 0.
Proof.
  assert (H : compareVersions a b = compareComponents saturatingParse a b).
  { rewrite compareVersions_components.
    apply compareComponents_ext, Atoi_saturating. }
  split; [exact H|]. split.
  - intros Hr. rewrite H. apply compareComponents_inRange, Hr.
  - split; reflexivity.
Qed.

Lemma compareVersions_saturating_witness :
  compareVersions "1.30" "1.31" = compareComponents integerParse "1.30" "1.31".
Proof.
  apply (compareVersions_saturating "1.30" "1.31"). reflexivity.
Defined.

(** C6 fails as stated: two components that differ only beyond the range
    of [int] compare equal, although as integers the first is larger. *)
Lemma compareVersions_not_integer_order :
  compareVersions "1.9223372036854775808" "1.9223372036854775807" = 0 /\
  compareComponents integerParse
    "1.9223372036854775808" "1.9223372036854775807" = 1.
Proof. split; vm_compute; reflexivity. Qed.

(* ===================================================================== *)
(** * Properties of [extractVersion]                                      *)
(* ===================================================================== *)

Lemma run_Plus_Digit_cons f x s' caps k :
  run (S f) (Plus Digit) (String x s') caps k =
    if strconv.isDigit x then
      match run f (Plus Digit) s' caps k with
      | Some m => Some m
      | None => k s' caps
      end
    else None.
Proof. reflexivity. Qed.

Lemma run_Plus_Digit fuel s caps k :
  (String.length s <= fuel)%nat ->
  run fuel (Plus Digit) s caps k = digitRun s caps k.
Proof.
  revert fuel. induction s as [|x s IH]; intros fuel Hf.
  - destruct fuel; reflexivity.
  - destruct fuel as [|f]; [simpl in Hf; lia|].
    rewrite run_Plus_Digit_cons. cbn [digitRun].
    rewrite IH by (simpl in Hf; lia). reflexivity.
Qed.

Lemma append_cons x (s t : string) : String x s +:+ t = String x (s +:+ t).
Proof. reflexivity. Qed.

Lemma append_empty (t : string) : "" +:+ t = t.
Proof. reflexivity. Qed.

Lemma takeDigits_dropDigits s : s = takeDigits s +:+ dropDigits s.
Proof.
  induction s as [|x s IH]; [reflexivity|]. simpl.
  destruct (strconv.isDigit x); [|reflexivity].
  rewrite append_cons. f_equal. exact IH.
Qed.

Lemma takeDigits_empty s : takeDigits s = "" -> dropDigits s = s.
Proof.
  destruct s as [|x s]; [reflexivity|]. simpl.
  destruct (strconv.isDigit x); [discriminate|reflexivity].
Qed.

Lemma dropDigits_length s : (String.length (dropDigits s) <= String.length s)%nat.
Proof.
  induction s as [|x s IH]; [simpl; lia|]. simpl.
  destruct (strconv.isDigit x); simpl; lia.
Qed.

Lemma takeDigits_allDigits s : allDigits (takeDigits s) = true.
Proof.
  unfold allDigits. induction s as [|x s IH]; [reflexivity|]. simpl.
  destruct (strconv.isDigit x) eqn:Hx; [simpl; rewrite Hx; exact IH|reflexivity].
Qed.

Lemma dropDigits_no_digit s : takeDigits (dropDigits s) = "".
Proof.
  induction s as [|x s IH]; [reflexivity|]. simpl.
  destruct (strconv.isDigit x) eqn:Hx; [exact IH|]. simpl. rewrite Hx. reflexivity.
Qed.

Lemma takeDigits_app d r :
  allDigits d = true -> takeDigits (d +:+ r) = d +:+ takeDigits r.
Proof.
  unfold allDigits. induction d as [|x d IH]; intros H; [reflexivity|].
  rewrite !append_cons. simpl in *.
  apply andb_true_iff in H as [Hx Hd]. rewrite Hx, IH by exact Hd.
  reflexivity.
Qed.

Lemma dropDigits_app d r :
  allDigits d = true -> dropDigits (d +:+ r) = dropDigits r.
Proof.
  unfold allDigits. induction d as [|x d IH]; intros H; [reflexivity|].
  rewrite append_cons. simpl in *.
  apply andb_true_iff in H as [Hx Hd]. rewrite Hx. apply IH, Hd.
Qed.

Lemma consumed_dropDigits s : consumed s (dropDigits s) = takeDigits s.
Proof.
  unfold consumed. induction s as [|x s IH]; [reflexivity|].
  cbn [dropDigits takeDigits]. destruct (strconv.isDigit x).
  - pose proof (dropDigits_length s).
    replace (String.length (String x s) - String.length (dropDigits s))%nat
      with (S (String.length s - String.length (dropDigits s))) by (simpl; lia).
    simpl. rewrite IH. reflexivity.
  - rewrite Nat.sub_diag. reflexivity.
Qed.

(** The greedy run decides: a continuation that fails after the longest
    run fails after every shorter one. *)
Lemma digitRun_longest s caps k :
  (forall s', takeDigits s' <> "" -> k (dropDigits s') caps = None ->
              k s' caps = None) ->
  digitRun s caps k =
    if String.eqb (takeDigits s) "" then None else k (dropDigits s) caps.
Proof.
  intros Hk. induction s as [|x s IH]; [reflexivity|].
  cbn [digitRun takeDigits dropDigits].
  destruct (strconv.isDigit x); [|reflexivity].
  rewrite IH. cbn [String.eqb].
  destruct (String.eqb_spec (takeDigits s) "") as [He|Hne].
  - rewrite (takeDigits_empty s He). reflexivity.
  - destruct (k (dropDigits s) caps) eqn:Hd; [reflexivity|].
    apply Hk; assumption.
Qed.

Lemma digit_not_dot x : strconv.isDigit x = true -> Ascii.eqb x "." = false.
Proof.
  intros Hx. destruct (Ascii.eqb_spec x "."); [subst; discriminate|reflexivity].
Qed.

Lemma digit_not_v x : strconv.isDigit x = true -> Ascii.eqb x "v" = false.
Proof.
  intros Hx. destruct (Ascii.eqb_spec x "v"); [subst; discriminate|reflexivity].
Qed.

(** [(\d+)\.(\d+)] entered on [t] inside a match that started on [whole]. *)
Lemma run_version fuel whole t caps :
  (String.length t <= fuel)%nat ->
  run fuel (Concat (Capture 1 (Plus Digit))
              (Concat (Lit ".") (Capture 2 (Plus Digit)))) t caps
      (fun s1 c1 => Some (<[0%nat := consumed whole s1]> c1)) =
  match versionAt t with
  | Some (d1, d2, rest) =>
      Some (<[0%nat := consumed whole rest]> (<[2%nat := d2]> (<[1%nat := d1]> caps)))
  | None => None
  end.
Proof.
  intros Hf. destruct fuel as [|f]; [destruct t; [reflexivity|simpl in Hf; lia]|].
  change (run (S f) (Concat (Capture 1 (Plus Digit))
              (Concat (Lit ".") (Capture 2 (Plus Digit)))) t caps
      (fun s1 c1 => Some (<[0%nat := consumed whole s1]> c1)))
    with (run (S f) (Plus Digit) t caps (fun s1 c1 =>
            match s1 with
            | String x s2 =>
                if Ascii.eqb x "."
                then run (S f) (Plus Digit) s2 (<[1%nat := consumed t s1]> c1)
                       (fun s3 c3 =>
                          Some (<[0%nat := consumed whole s3]>
                                  (<[2%nat := consumed s2 s3]> c3)))
                else None
            | EmptyString => None
            end)).
  rewrite run_Plus_Digit by exact Hf.
  rewrite digitRun_longest.
  2:{ intros s' Hs' _. destruct s' as [|y s'']; [reflexivity|].
      simpl in Hs'. destruct (strconv.isDigit y) eqn:Hy; [|congruence].
      rewrite (digit_not_dot y Hy). reflexivity. }
  unfold versionAt.
  destruct (String.eqb (takeDigits t) ""); [reflexivity|].
  pose proof (dropDigits_length t) as Hl1.
  destruct (dropDigits t) as [|x s2] eqn:Hdrop; [reflexivity|].
  destruct (Ascii.eqb x "."); [|reflexivity].
  rewrite run_Plus_Digit by (simpl in Hl1; lia).
  rewrite digitRun_longest by (intros s' _ H; discriminate H).
  destruct (String.eqb (takeDigits s2) ""); [reflexivity|].
  rewrite <- Hdrop, !consumed_dropDigits. reflexivity.
Qed.

Lemma matchHere_versionPattern s :
  matchHere versionPattern s =
  match versionHere s with
  | Some (d1, d2, rest) => Some [consumed s rest; d1; d2]
  | None => None
  end.
Proof.
  unfold matchHere, versionHere.
  set (R := Concat (Capture 1 (Plus Digit))
              (Concat (Lit ".") (Capture 2 (Plus Digit)))).
  set (caps0 := replicate (S (numCap versionPattern)) EmptyString).
  set (K := fun (s1 : string) (c1 : list string) =>
              Some (<[0%nat := consumed s s1]> c1)).
  change (run (S (String.length s)) (Capture 0 versionPattern) s caps0
            (fun _ caps => Some caps))
    with (match
            match s with
            | String x s' =>
                if Ascii.eqb x "v"
                then run (S (String.length s)) R s' caps0 K else None
            | EmptyString => None
            end
          with
          | Some m => Some m
          | None => run (S (String.length s)) R s caps0 K
          end).
  subst R K. rewrite (run_version _ s s) by lia.
  destruct s as [|x s']; [reflexivity|].
  destruct (Ascii.eqb x "v").
  - rewrite (run_version _ (String x s') s') by (simpl; lia).
    destruct (versionAt s') as [[[d1 d2] rest]|]; [reflexivity|].
    destruct (versionAt (String x s')) as [[[d1 d2] rest]|]; reflexivity.
  - destruct (versionAt (String x s')) as [[[d1 d2] rest]|]; reflexivity.
Qed.

Lemma extractVersion_step text :
  extractVersion text =
  match versionHere text with
  | Some (d1, d2, _) => d1 +:+ "." +:+ d2
  | None =>
      match text with
      | EmptyString => ""
      | String _ text' => extractVersion text'
      end
  end.
Proof.
  unfold extractVersion.
  destruct text as [|x text']; cbn [FindStringSubmatch];
    rewrite matchHere_versionPattern;
    destruct (versionHere _) as [[[d1 d2] rest]|]; reflexivity.
Qed.

Lemma nonempty_eqb (s : string) : String.eqb s "" = false <-> s <> "".
Proof. destruct (String.eqb_spec s ""); split; congruence. Qed.

Lemma versionAt_Some t d1 d2 rest :
  versionAt t = Some (d1, d2, rest) ->
  t = d1 +:+ "." +:+ d2 +:+ rest /\ d1 <> "" /\ d2 <> "" /\
  allDigits d1 = true /\ allDigits d2 = true /\ takeDigits rest = "".
Proof.
  unfold versionAt. intros H.
  destruct (String.eqb (takeDigits t) "") eqn:H1; [discriminate|].
  destruct (dropDigits t) as [|x s2] eqn:Hdrop; [discriminate|].
  destruct (Ascii.eqb_spec x "."); [subst x|discriminate].
  destruct (String.eqb (takeDigits s2) "") eqn:H2; [discriminate|].
  injection H as <- <- <-.
  apply nonempty_eqb in H1, H2.
  repeat split; auto using takeDigits_allDigits, dropDigits_no_digit.
  rewrite (takeDigits_dropDigits t) at 1. rewrite Hdrop. f_equal.
  rewrite append_cons, append_empty. f_equal. apply takeDigits_dropDigits.
Qed.

Lemma allDigits_head d :
  d <> "" -> allDigits d = true ->
  exists x d', d = String x d' /\ strconv.isDigit x = true.
Proof.
  destruct d as [|x d']; [congruence|]. unfold allDigits. simpl.
  intros _ H. apply andb_true_iff in H as [Hx _]. eauto.
Qed.

Lemma versionAt_complete d1 d2 rest :
  d1 <> "" -> d2 <> "" -> allDigits d1 = true -> allDigits d2 = true ->
  versionAt (d1 +:+ "." +:+ d2 +:+ rest) <> None.
Proof.
  intros N1 N2 A1 A2. unfold versionAt.
  rewrite takeDigits_app, dropDigits_app by exact A1.
  rewrite append_cons, append_empty.
  cbn [takeDigits dropDigits].
  destruct (allDigits_head d1 N1 A1) as (x1 & d1' & -> & _).
  destruct (allDigits_head d2 N2 A2) as (x2 & d2' & -> & Hx2).
  rewrite !append_cons. cbn [String.eqb].
  change (strconv.isDigit ".") with false. cbv iota.
  change (Ascii.eqb "." ".") with true. cbv iota.
  cbn [takeDigits]. rewrite Hx2. cbn [String.eqb]. discriminate.
Qed.

Lemma versionAt_v s : versionAt (String "v" s) = None.
Proof. reflexivity. Qed.

Lemma versionHere_Some s d1 d2 rest :
  versionHere s = Some (d1, d2, rest) ->
  exists v, (v = "" \/ v = "v") /\ s = v +:+ d1 +:+ "." +:+ d2 +:+ rest /\
    d1 <> "" /\ d2 <> "" /\ allDigits d1 = true /\ allDigits d2 = true /\
    takeDigits rest = "".
Proof.
  unfold versionHere. intros H.
  destruct s as [|x s'].
  - apply versionAt_Some in H. exists "". rewrite append_empty. tauto.
  - destruct (Ascii.eqb_spec x "v") as [->|Hx].
    + rewrite versionAt_v in H.
      destruct (versionAt s') as [r|] eqn:Hat; [|discriminate].
      injection H as ->. apply versionAt_Some in Hat as (-> & Hrest).
      exists "v". rewrite append_cons, append_empty. tauto.
    + apply versionAt_Some in H. exists "". rewrite append_empty. tauto.
Qed.

Lemma versionHere_None s d1 d2 : versionHere s = None -> ~ matchesAt s d1 d2.
Proof.
  intros H (v & rest & Hv & -> & N1 & N2 & A1 & A2).
  pose proof (versionAt_complete d1 d2 rest N1 N2 A1 A2) as Hc.
  unfold versionHere in H. destruct Hv as [->| ->].
  - rewrite append_empty in H.
    destruct (d1 +:+ "." +:+ d2 +:+ rest) as [|x s'].
    + contradiction.
    + destruct (if Ascii.eqb x "v" then versionAt s' else None);
        [discriminate|contradiction].
  - rewrite append_cons, append_empty in H. cbn [Ascii.eqb] in H.
    change (Ascii.eqb "v" "v") with true in H. cbv iota in H.
    destruct (versionAt (d1 +:+ "." +:+ d2 +:+ rest)); [discriminate|contradiction].
Qed.

(** No occurrence of the pattern starts in the first [n] bytes of [text]. *)
Lemma no_match_cons x text n :
  versionHere (String x text) = None ->
  (forall pre s d1 d2, text = pre +:+ s -> (String.length pre < n)%nat ->
     ~ matchesAt s d1 d2) ->
  forall pre s d1 d2, String x text = pre +:+ s -> (String.length pre < S n)%nat ->
    ~ matchesAt s d1 d2.
Proof.
  intros Hhere Htail pre s d1 d2 Heq Hlen.
  destruct pre as [|y pre'].
  - rewrite append_empty in Heq. subst s. apply versionHere_None, Hhere.
  - rewrite append_cons in Heq. injection Heq as _ Heq.
    apply (Htail pre' s d1 d2 Heq). simpl in Hlen. lia.
Qed.

(** C8. [extractVersion] returns the first occurrence in the text of
    digits, a dot and digits after an optional ["v"], as
    [<digits>.<digits>] without the ["v"], both runs of digits taken as
    long as they are; it returns the empty string exactly when the text
    has no such occurrence. *)
Theorem extractVersion_first_occurrence (text : string) :
  ((extractVersion text = "" /\
    forall pre s d1 d2, text = pre +:+ s -> ~ matchesAt s d1 d2) \/
   (exists pre v d1 d2 rest,
      text = pre +:+ v +:+ d1 +:+ "." +:+ d2 +:+ rest /\
      (v = "" \/ v = "v") /\ d1 <> "" /\ d2 <> "" /\
      allDigits d1 = true /\ allDigits d2 = true /\ takeDigits rest = "" /\
      extractVersion text = d1 +:+ "." +:+ d2 /\
      forall pre' s' e1 e2, text = pre' +:+ s' ->
        (String.length pre' < String.length pre)%nat -> ~ matchesAt s' e1 e2)) /\
  extractVersion "v1.32 stable" = "1.32" /\
  extractVersion "1.30" = "1.30" /\
  extractVersion "latest" = "".
Proof.
  split; [|repeat split; reflexivity].
  induction text as [|x text IH]; rewrite extractVersion_step.
  - left. split; [reflexivity|].
    intros pre s d1 d2 Heq. destruct pre; [|discriminate].
    rewrite append_empty in Heq. subst s. apply versionHere_None. reflexivity.
  - destruct (versionHere (String x text)) as [[[d1 d2] rest]|] eqn:Hhere.
    + right. apply versionHere_Some in Hhere
        as (v & Hv & Heq & N1 & N2 & A1 & A2 & Hrest).
      exists "", v, d1, d2, rest. rewrite append_empty.
      repeat (split; [assumption || reflexivity|]).
      intros pre' s' e1 e2 _ Hlen. simpl in Hlen. lia.
    + destruct IH as [[Hnone Hno] | (pre & v & d1 & d2 & rest & Heq & Hrest)].
      * left. split; [exact Hnone|].
        intros pre s d1 d2 Heq.
        apply (no_match_cons x text (String.length pre) Hhere) with (pre := pre);
          [|exact Heq|lia].
        intros pre0 s0 e1 e2 Heq0 _. apply (Hno pre0 s0 e1 e2 Heq0).
      * right. exists (String x pre), v, d1, d2, rest.
        rewrite append_cons, <- Heq.
        destruct Hrest as (Hv & N1 & N2 & A1 & A2 & Hr & Hex & Hearlier).
        repeat (split; [assumption || reflexivity|]).
        cbn [String.length].
        apply (no_match_cons x text (String.length pre) Hhere). exact Hearlier.
Qed.

(* ===================================================================== *)
(** * Properties of field discovery                                       *)
(* ===================================================================== *)

Lemma collectOptions_snoc opts o :
  collectOptions (opts ++ [o]) = <[optName o := optID o]> (collectOptions opts).
Proof. unfold collectOptions. rewrite foldl_app. reflexivity. Qed.

Lemma collectOptions_lookup opts name :
  collectOptions opts !! name = optionNamed name opts.
Proof.
  unfold optionNamed.
  induction opts as [|o opts IH] using rev_ind; [reflexivity|].
  rewrite collectOptions_snoc, filter_app, filter_cons, filter_nil.
  destruct (decide (optName o = name)) as [<-|Hne].
  - rewrite lookup_insert_eq, last_snoc. reflexivity.
  - rewrite lookup_insert_ne by exact Hne. rewrite app_nil_r. exact IH.
Qed.

(** When the names are pairwise different, every option is found under
    its own name. *)
Lemma optionNamed_NoDup opts o :
  NoDup (optName <$> opts) -> o ∈ opts ->
  optionNamed (optName o) opts = Some (optID o).
Proof.
  unfold optionNamed.
  induction opts as [|o' opts IH] using rev_ind; intros Hnd Hin.
  { inversion Hin. }
  rewrite fmap_app in Hnd. apply NoDup_app in Hnd as (Hnd & Hdisj & _).
  rewrite filter_app, filter_cons, filter_nil.
  apply elem_of_app in Hin as [Hin|Hin].
  - destruct (decide (optName o' = optName o)) as [Heq|Hne].
    + exfalso. apply (Hdisj (optName o)).
      * apply list_elem_of_fmap. eauto.
      * rewrite <- Heq. simpl. left.
    + rewrite app_nil_r. apply IH; assumption.
  - apply list_elem_of_singleton in Hin as ->.
    rewrite decide_True by reflexivity. rewrite last_snoc. reflexivity.
Qed.

Lemma collectFields_app nodes fields :
  collectFields nodes fields = (fields ++ collectFields nodes [])%list.
Proof.
  revert fields. induction nodes as [|node rest IH]; intros fields.
  - simpl. rewrite app_nil_r. reflexivity.
  - cbn [collectFields].
    destruct (String.eqb _ _); [|destruct (String.eqb _ _)].
    + rewrite IH, (IH ([] ++ _)%list), app_assoc. reflexivity.
    + rewrite IH, (IH ([] ++ _)%list), app_assoc. reflexivity.
    + apply IH.
Qed.

Lemma collectFields_normalised nodes :
  Forall2 normalised (filter recognised nodes) (collectFields nodes []).
Proof.
  induction nodes as [|node rest IH]; [constructor|].
  cbn [collectFields]. rewrite filter_cons.
  destruct (String.eqb_spec (Typename node) "ProjectV2SingleSelectField") as [Hs|Hs].
  - rewrite decide_True by (left; exact Hs).
    rewrite collectFields_app. constructor; [|exact IH].
    apply normalised_single; try reflexivity; [exact Hs|].
    intros name. apply collectOptions_lookup.
  - destruct (String.eqb_spec (Typename node) "ProjectV2IterationField") as [Hi|Hi].
    + rewrite decide_True by (right; exact Hi).
      rewrite collectFields_app. constructor; [|exact IH].
      apply normalised_iteration; try reflexivity. exact Hi.
    + rewrite decide_False by (intros [?|?]; contradiction). exact IH.
Qed.

Lemma GetProjectFields_run api g client w :
  githubClient g = Some client ->
  GetProjectFields api g w =
    let w' := {| calls := calls w ++ [QueryFields (AccessToken client) (strID (projectID g))];
                 stdout := stdout w |} in
    match serveQuery api (calls w) (AccessToken client) (strID (projectID g)) with
    | inl err => (inl (fmt_Errorf_w "failed to query project fields: " err), w')
    | inr nodes => (inr (collectFields nodes []), w')
    end.
Proof.
  intros Hc. unfold GetProjectFields. rewrite Hc.
  unfold Query, mbind, M_bind, seen, send, mret, M_ret. simpl.
  destruct (serveQuery _ _ _ _); reflexivity.
Qed.

(** C9. A discovery call whose query succeeds succeeds, and returns, in
    the order of the response, one field for every child that is a
    single-select field (its id, its name, and its options as a map from
    display name to identifier) or an iteration field (its id, its name,
    no options); the children of any other variant are left out. *)
Theorem GetProjectFields_recognised_variants
    (api : Remote) (g : ProjectManager) (client : Client) (w : World)
    (nodes : list FieldNode) :
  githubClient g = Some client ->
  serveQuery api (calls w) (AccessToken client) (strID (projectID g)) = inr nodes ->
  exists fields,
    (GetProjectFields api g w).1 = inr fields /\
    Forall2 normalised (filter recognised nodes) fields /\
    (forall i node f o,
       filter recognised nodes !! i = Some node -> fields !! i = Some f ->
       Typename node = "ProjectV2SingleSelectField" ->
       NoDup (optName <$> ssOptions (ProjectV2SingleSelectField node)) ->
       o ∈ ssOptions (ProjectV2SingleSelectField node) ->
       Options f !! optName o = Some (optID o)).
Proof.
  intros Hc Hq. exists (collectFields nodes []).
  rewrite (GetProjectFields_run api g client w Hc). cbn zeta. rewrite Hq.
  split; [reflexivity|]. split; [apply collectFields_normalised|].
  intros i node f o Hnode Hf Hs Hnd Ho.
  destruct (Forall2_lookup_lr _ _ _ _ _ _ (collectFields_normalised nodes) Hnode Hf)
    as [_ _ _ Hopts | Hi _ _ _].
  - rewrite Hopts. apply optionNamed_NoDup; assumption.
  - rewrite Hs in Hi. discriminate.
Qed.

Lemma GetProjectFields_recognised_variants_witness :
  exists fields,
    (GetProjectFields (remoteOf boardSchema []) (NewProjectManager "token") World0).1
      = inr fields /\
    Forall2 normalised (filter recognised boardSchema) fields.
Proof.
  destruct (GetProjectFields_recognised_variants
              (remoteOf boardSchema []) (NewProjectManager "token")
              {| AccessToken := "token" |} World0 boardSchema
              eq_refl eq_refl) as (fields & H1 & H2 & _).
  exists fields. split; assumption.
Defined.

(* ===================================================================== *)
(** * Properties of field resolution                                      *)
(* ===================================================================== *)

Lemma compareVersions_le_lt a b c :
  compareVersions a b <= 0 -> compareVersions b c < 0 -> compareVersions a c < 0.
Proof.
  intros Hab Hbc.
  assert (Hac : compareVersions a c <= 0) by (apply (compareVersions_trans a b c); lia).
  destruct (Z.eq_dec (compareVersions a c) 0) as [H0|]; [|lia].
  assert (Hca : compareVersions c a <= 0) by (rewrite compareVersions_opp; lia).
  pose proof (compareVersions_trans c a b Hca Hab) as Hcb.
  rewrite (compareVersions_opp c b) in Hcb. lia.
Qed.

Lemma compareVersions_lt_le a b c :
  compareVersions a b < 0 -> compareVersions b c <= 0 -> compareVersions a c < 0.
Proof.
  intros Hab Hbc.
  assert (Hac : compareVersions a c <= 0) by (apply (compareVersions_trans a b c); lia).
  destruct (Z.eq_dec (compareVersions a c) 0) as [H0|]; [|lia].
  assert (Hca : compareVersions c a <= 0) by (rewrite compareVersions_opp; lia).
  pose proof (compareVersions_trans b c a Hbc Hca) as Hba.
  rewrite (compareVersions_opp b a) in Hba. lia.
Qed.

Lemma latestOption_snoc entries e :
  latestOption (entries ++ [e]) = latestStep (latestOption entries) e.
Proof. unfold latestOption. rewrite foldl_app. reflexivity. Qed.

Lemma latestStep_skip lv lid optName optID :
  extractVersion optName = "" ->
  latestStep (lv, lid) (optName, optID) = (lv, lid).
Proof. intros H. unfold latestStep. rewrite H. reflexivity. Qed.

Lemma latestStep_first lid optName optID :
  extractVersion optName <> "" ->
  latestStep ("", lid) (optName, optID) = (extractVersion optName, optID).
Proof.
  intros H. unfold latestStep.
  destruct (String.eqb_spec (extractVersion optName) ""); [contradiction|].
  reflexivity.
Qed.

Lemma latestStep_compare lv lid optName optID :
  extractVersion optName <> "" -> lv <> "" ->
  latestStep (lv, lid) (optName, optID) =
    if compareVersions (extractVersion optName) lv >? 0
    then (extractVersion optName, optID) else (lv, lid).
Proof.
  intros H Hlv. unfold latestStep.
  destruct (String.eqb_spec (extractVersion optName) ""); [contradiction|].
  destruct (String.eqb_spec lv ""); [contradiction|]. reflexivity.
Qed.

(** The loop for the latest version keeps the first entry with the
    highest version, and nothing when no name yields a version. *)
Lemma latestOption_spec entries :
  (latestOption entries = ("", strID "") /\
   forall e, e ∈ entries -> extractVersion e.1 = "") \/
  (exists name id,
     latestOption entries = (extractVersion name, id) /\
     firstLatest entries name id).
Proof.
  induction entries as [|[optName optID] entries IH] using rev_ind.
  { left. split; [reflexivity|]. intros e He. inversion He. }
  rewrite latestOption_snoc.
  destruct (String.eqb_spec (extractVersion optName) "") as [Hv|Hv].
  - (* the new name yields no version *)
    destruct IH as [[Heq Hnone] | (name & id & Heq & before & after & -> & Hn & Hb & Ha)].
    + left. rewrite Heq, latestStep_skip by exact Hv. split; [reflexivity|].
      intros e He. apply elem_of_app in He as [He|He]; [apply Hnone, He|].
      apply list_elem_of_singleton in He as ->. exact Hv.
    + right. exists name, id. rewrite Heq, latestStep_skip by exact Hv.
      split; [reflexivity|].
      exists before, (after ++ [(optName, optID)]).
      split; [rewrite <- app_assoc; reflexivity|]. split; [exact Hn|].
      split; [exact Hb|].
      intros e He Hp. apply elem_of_app in He as [He|He]; [apply Ha; assumption|].
      apply list_elem_of_singleton in He as ->. contradiction.
  - destruct IH as [[Heq Hnone] | (name & id & Heq & before & after & -> & Hn & Hb & Ha)].
    + (* the first version *)
      right. exists optName, optID. rewrite Heq, latestStep_first by exact Hv.
      split; [reflexivity|]. exists entries, [].
      split; [reflexivity|]. split; [exact Hv|]. split.
      * intros e He Hp. exfalso. apply Hp, Hnone, He.
      * intros e He. inversion He.
    + rewrite Heq, latestStep_compare by assumption.
      destruct (Z.gtb_spec (compareVersions (extractVersion optName)
                              (extractVersion name)) 0) as [Hgt|Hle].
      * (* a strictly higher version replaces the current one *)
        right. exists optName, optID. split; [reflexivity|].
        exists (before ++ (name, id) :: after), [].
        split; [reflexivity|]. split; [exact Hv|].
        assert (Hlt : compareVersions (extractVersion name)
                        (extractVersion optName) < 0)
          by (rewrite compareVersions_opp; lia).
        split; [|intros e He; inversion He].
        intros e He Hp. apply elem_of_app in He as [He|He].
        { apply (compareVersions_lt_le _ (extractVersion name)); [|lia].
          apply Hb; assumption. }
        apply elem_of_cons in He as [->|He]; [exact Hlt|].
        apply (compareVersions_le_lt _ (extractVersion name)); [|exact Hlt].
        apply Ha; assumption.
      * (* otherwise the current one stays *)
        right. exists name, id. split; [reflexivity|].
        exists before, (after ++ [(optName, optID)]).
        split; [rewrite <- app_assoc; reflexivity|]. split; [exact Hn|].
        split; [exact Hb|].
        intros e He Hp. apply elem_of_app in He as [He|He]; [apply Ha; assumption|].
        apply list_elem_of_singleton in He as ->. exact Hle.
Qed.

Lemma firstMatch_spec test entries valueID :
  (firstMatch test entries valueID = valueID /\
   forall e, e ∈ entries -> test e.1 = false) \/
  (exists name id,
     firstMatch test entries valueID = id /\ firstPassing test entries name id).
Proof.
  induction entries as [|[optName optID] entries IH].
  { left. split; [reflexivity|]. intros e He. inversion He. }
  cbn [firstMatch]. destruct (test optName) eqn:Ht.
  - right. exists optName, optID. split; [reflexivity|].
    exists [], entries. split; [reflexivity|]. split; [exact Ht|].
    intros e He. inversion He.
  - destruct IH as [[Heq Hnone] | (name & id & Heq & before & after & -> & Hn & Hb)].
    + left. split; [exact Heq|].
      intros e He. apply elem_of_cons in He as [->|He]; [exact Ht|apply Hnone, He].
    + right. exists name, id. split; [exact Heq|].
      exists ((optName, optID) :: before), after.
      split; [reflexivity|]. split; [exact Hn|].
      intros e He. apply elem_of_cons in He as [->|He]; [exact Ht|apply Hb, He].
Qed.

(** What a valid order visits is what the map holds. *)
Lemma validRange_lookup rangeMap site i (m : gmap string g4_ID) name id :
  validRange rangeMap ->
  (name, id) ∈ rangeMap site i m <-> m !! name = Some id.
Proof.
  intros Hvalid. rewrite (Hvalid site i m). apply elem_of_map_to_list.
Qed.

Lemma validRange_forward : validRange rangeForward.
Proof. intros site i m. reflexivity. Qed.

Lemma validRange_backward : validRange rangeBackward.
Proof. intros site i m. apply reverse_Permutation. Qed.

Lemma elem_of_middle {A} (before after : list A) x : x ∈ before ++ x :: after.
Proof. apply elem_of_app. right. left. Qed.

Section resolver.
Variable ToLower : string -> string.
Variable rangeMap : RangeOrder.

(** Each block of the loop body reads and writes the two variables of
    its own role only. *)
Lemma resolveField_release board i field t :
  k8sReleaseFieldID (resolveField ToLower rangeMap board i field t) =
    k8sReleaseFieldID (resolveRelease ToLower rangeMap i field t) /\
  k8sReleaseValueID (resolveField ToLower rangeMap board i field t) =
    k8sReleaseValueID (resolveRelease ToLower rangeMap i field t).
Proof.
  unfold resolveField, resolveStatus, resolveBoard, resolveView.
  repeat destruct (GoStrings.Contains _ _); split; reflexivity.
Qed.

Lemma resolveField_view board i field t :
  viewFieldID (resolveField ToLower rangeMap board i field t) =
    viewFieldID (resolveView ToLower rangeMap i field t) /\
  viewValueID (resolveField ToLower rangeMap board i field t) =
    viewValueID (resolveView ToLower rangeMap i field t).
Proof.
  unfold resolveField, resolveStatus, resolveBoard, resolveView, resolveRelease.
  destruct (latestOption _) as [lv lid].
  repeat destruct (GoStrings.Contains _ _); split; reflexivity.
Qed.

Lemma resolveField_board board i field t :
  boardFieldID (resolveField ToLower rangeMap board i field t) =
    boardFieldID (resolveBoard ToLower rangeMap board i field t) /\
  boardValueID (resolveField ToLower rangeMap board i field t) =
    boardValueID (resolveBoard ToLower rangeMap board i field t).
Proof.
  unfold resolveField, resolveStatus, resolveBoard, resolveView, resolveRelease.
  destruct (latestOption _) as [lv lid].
  repeat destruct (GoStrings.Contains _ _); split; reflexivity.
Qed.

Lemma resolveField_status board i field t :
  statusFieldID (resolveField ToLower rangeMap board i field t) =
    statusFieldID (resolveStatus ToLower rangeMap i field t) /\
  statusValueID (resolveField ToLower rangeMap board i field t) =
    statusValueID (resolveStatus ToLower rangeMap i field t).
Proof.
  unfold resolveField, resolveStatus, resolveBoard, resolveView, resolveRelease.
  destruct (latestOption _) as [lv lid].
  repeat destruct (GoStrings.Contains _ _); split; reflexivity.
Qed.

Lemma resolveRelease_spec i field t :
  validRange rangeMap ->
  GoStrings.Contains (ToLower (Name field)) "k8s release" = true ->
  let entries := rangeMap RangeRelease i (Options field) in
  let t' := resolveRelease ToLower rangeMap i field t in
  k8sReleaseFieldID t' = ID field /\
  (((forall e, e ∈ entries -> extractVersion e.1 = "") /\
    k8sReleaseValueID t' = k8sReleaseValueID t) \/
   (exists name id,
      firstLatest entries name id /\ Options field !! name = Some id /\
      k8sReleaseValueID t' =
        if decide (id = strID "") then k8sReleaseValueID t else id)).
Proof.
  intros Hvalid Hname entries t'. subst t'. unfold resolveRelease.
  rewrite Hname. fold entries.
  destruct (latestOption_spec entries)
    as [[Heq Hnone] | (name & id & Heq & Hfirst)]; rewrite Heq; cbn.
  - split; [reflexivity|]. left. split; [exact Hnone|].
    rewrite bool_decide_eq_false_2 by (intros H; apply H; reflexivity).
    reflexivity.
  - split; [reflexivity|]. right. exists name, id.
    split; [exact Hfirst|]. split.
    + destruct Hfirst as (before & after & Hent & _).
      apply (validRange_lookup rangeMap RangeRelease i _ name id Hvalid).
      fold entries. rewrite Hent. apply elem_of_middle.
    + destruct (decide (id = strID "")) as [->|Hne].
      * rewrite bool_decide_eq_false_2 by (intros H; apply H; reflexivity).
        reflexivity.
      * rewrite bool_decide_eq_true_2 by exact Hne. reflexivity.
Qed.

Lemma releaseOptions_lookup name id :
  releaseOptions !! name = Some id <->
  (name = "v1.30" /\ id = strID "id1") \/
  (name = "v1.32" /\ id = strID "id2") \/
  (name = "stable" /\ id = strID "id3").
Proof.
  unfold releaseOptions, collectOptions. cbn [foldl optName optID mkOption].
  rewrite !lookup_insert_Some, lookup_empty. split.
  - intros [[<- <-]|[_ [[<- <-]|[_ [[<- <-]|[_ H]]]]]]; [tauto..|discriminate].
  - intros [[-> ->]|[[-> ->]|[-> ->]]].
    + right. split; [discriminate|]. right. split; [discriminate|]. left. tauto.
    + right. split; [discriminate|]. left. tauto.
    + left. tauto.
Qed.

(** C3, as the code has it. For a field whose lower-cased name contains
    "k8s release", the loop body sets the Release field to this field,
    runs [extractVersion] on the name of every option, ignores the names
    that yield nothing, and selects the option whose version is maximal
    under [compareVersions]; among options with the same maximal version
    it selects the one the [range] over the map of options visits
    first. That order is some order of the entries of the map, not the
    order of discovery. The selected identifier becomes the Release
    value unless it is the empty string; without a selection the value
    is left as it was. For the options v1.30, v1.32 and stable the
    selection is the identifier of v1.32 in every order. *)
Theorem resolveField_release_latest
    (board : string) (i : nat) (field : ProjectFieldInfo) (t : Targets) :
  validRange rangeMap ->
  GoStrings.Contains (ToLower (Name field)) "k8s release" = true ->
  let entries := rangeMap RangeRelease i (Options field) in
  let t' := resolveField ToLower rangeMap board i field t in
  entries ≡ₚ map_to_list (Options field) /\
  k8sReleaseFieldID t' = ID field /\
  (((forall e, e ∈ entries -> extractVersion e.1 = "") /\
    k8sReleaseValueID t' = k8sReleaseValueID t) \/
   (exists name id,
      firstLatest entries name id /\ Options field !! name = Some id /\
      k8sReleaseValueID t' =
        if decide (id = strID "") then k8sReleaseValueID t else id)) /\
  (Options field = releaseOptions -> k8sReleaseValueID t' = strID "id2").
Proof.
  intros Hvalid Hname entries t'. subst t'.
  destruct (resolveField_release board i field t) as [-> ->].
  destruct (resolveRelease_spec i field t Hvalid Hname) as [Hid Hsel].
  fold entries in Hsel.
  split; [apply Hvalid|]. split; [exact Hid|]. split; [exact Hsel|].
  intros Hopts.
  assert (Hin : ("v1.32", strID "id2") ∈ entries).
  { apply (validRange_lookup rangeMap RangeRelease i _ _ _ Hvalid).
    rewrite Hopts. apply releaseOptions_lookup. tauto. }
  destruct Hsel as [[Hnone _] | (name & id & Hfirst & Hlook & ->)].
  { specialize (Hnone _ Hin). vm_compute in Hnone. discriminate. }
  rewrite Hopts in Hlook. apply releaseOptions_lookup in Hlook.
  destruct Hfirst as (before & after & Hent & Hparse & Hb & Ha).
  destruct Hlook as [[-> ->]|[[-> ->]|[-> ->]]].
  - exfalso. rewrite Hent in Hin.
    apply elem_of_app in Hin as [Hin|Hin].
    + specialize (Hb _ Hin). cbn [fst] in Hb.
      assert (Hc : 1 < 0) by (apply Hb; vm_compute; discriminate). lia.
    + apply elem_of_cons in Hin as [Hin|Hin]; [discriminate|].
      specialize (Ha _ Hin). cbn [fst] in Ha.
      assert (Hc : 1 <= 0) by (apply Ha; vm_compute; discriminate). lia.
  - reflexivity.
  - exfalso. apply Hparse. reflexivity.
Qed.

Lemma resolveBoard_spec board i field t :
  validRange rangeMap ->
  GoStrings.Contains (ToLower (Name field)) "board" = true ->
  let entries := rangeMap RangeBoard i (Options field) in
  let t' := resolveBoard ToLower rangeMap board i field t in
  boardFieldID t' = ID field /\
  (((forall e, e ∈ entries -> boardTest ToLower board e.1 = false) /\
    boardValueID t' = boardValueID t) \/
   (exists name id,
      firstPassing (boardTest ToLower board) entries name id /\
      Options field !! name = Some id /\ boardValueID t' = id)).
Proof.
  intros Hvalid Hname entries t'. subst t'. unfold resolveBoard.
  rewrite Hname. fold entries. cbn. split; [reflexivity|].
  destruct (firstMatch_spec (boardTest ToLower board) entries (boardValueID t))
    as [[Heq Hnone] | (name & id & Heq & Hfirst)].
  - left. split; assumption.
  - right. exists name, id. split; [exact Hfirst|]. split; [|exact Heq].
    destruct Hfirst as (before & after & Hent & _).
    apply (validRange_lookup rangeMap RangeBoard i _ name id Hvalid).
    fold entries. rewrite Hent. apply elem_of_middle.
Qed.

(** C4, as the code has it. For a field whose lower-cased name contains
    "board", the loop body sets the Board field to this field and the
    Board value to the identifier of the first option, in the order the
    [range] visits the map, whose lower-cased name occurs in the board
    string as the caller passed it; the board string itself is not
    lower-cased. Without such an option the Board value is left as it
    was. *)
Theorem resolveField_board_first_match
    (board : string) (i : nat) (field : ProjectFieldInfo) (t : Targets) :
  validRange rangeMap ->
  GoStrings.Contains (ToLower (Name field)) "board" = true ->
  let entries := rangeMap RangeBoard i (Options field) in
  let t' := resolveField ToLower rangeMap board i field t in
  entries ≡ₚ map_to_list (Options field) /\
  boardFieldID t' = ID field /\
  (((forall e, e ∈ entries ->
       GoStrings.Contains board (ToLower e.1) = false) /\
    boardValueID t' = boardValueID t) \/
   (exists name id,
      firstPassing (fun optName => GoStrings.Contains board (ToLower optName))
        entries name id /\
      Options field !! name = Some id /\ boardValueID t' = id)).
Proof.
  intros Hvalid Hname entries t'. subst t'.
  destruct (resolveField_board board i field t) as [-> ->].
  split; [apply Hvalid|].
  apply (resolveBoard_spec board i field t Hvalid Hname).
Qed.

Lemma resolveView_spec i field t :
  validRange rangeMap ->
  GoStrings.Contains (ToLower (Name field)) "view" = true ->
  let t' := resolveView ToLower rangeMap i field t in
  viewFieldID t' = ID field /\
  (viewValueID t' = viewValueID t \/
   exists name, Options field !! name = Some (viewValueID t') /\
                viewTest ToLower name = true).
Proof.
  intros Hvalid Hname t'. subst t'. unfold resolveView.
  rewrite Hname. cbn. split; [reflexivity|].
  destruct (firstMatch_spec (viewTest ToLower)
              (rangeMap RangeView i (Options field)) (viewValueID t))
    as [[Heq _] | (name & id & Heq & before & after & Hent & Htest & _)].
  - left. exact Heq.
  - right. exists name. rewrite Heq. split; [|exact Htest].
    apply (validRange_lookup rangeMap RangeView i _ name id Hvalid).
    rewrite Hent. apply elem_of_middle.
Qed.

Lemma resolveStatus_spec i field t :
  validRange rangeMap ->
  GoStrings.Contains (ToLower (Name field)) "status" = true ->
  let t' := resolveStatus ToLower rangeMap i field t in
  statusFieldID t' = ID field /\
  (statusValueID t' = statusValueID t \/
   exists name, Options field !! name = Some (statusValueID t') /\
                statusTest ToLower name = true).
Proof.
  intros Hvalid Hname t'. subst t'. unfold resolveStatus.
  rewrite Hname. cbn. split; [reflexivity|].
  destruct (firstMatch_spec (statusTest ToLower)
              (rangeMap RangeStatus i (Options field)) (statusValueID t))
    as [[Heq _] | (name & id & Heq & before & after & Hent & Htest & _)].
  - left. exact Heq.
  - right. exists name. rewrite Heq. split; [|exact Htest].
    apply (validRange_lookup rangeMap RangeStatus i _ name id Hvalid).
    rewrite Hent. apply elem_of_middle.
Qed.

Lemma resolveView_exact i field t :
  validRange rangeMap ->
  GoStrings.Contains (ToLower (Name field)) "view" = true ->
  let entries := rangeMap RangeView i (Options field) in
  let t' := resolveView ToLower rangeMap i field t in
  viewFieldID t' = ID field /\
  (((forall e, e ∈ entries -> viewTest ToLower e.1 = false) /\
    viewValueID t' = viewValueID t) \/
   (exists name id,
      firstPassing (viewTest ToLower) entries name id /\
      Options field !! name = Some id /\ viewValueID t' = id)).
Proof.
  intros Hvalid Hname entries t'. subst t'. unfold resolveView.
  rewrite Hname. fold entries. cbn. split; [reflexivity|].
  destruct (firstMatch_spec (viewTest ToLower) entries (viewValueID t))
    as [[Heq Hnone] | (name & id & Heq & Hfirst)].
  - left. split; assumption.
  - right. exists name, id. split; [exact Hfirst|]. split; [|exact Heq].
    destruct Hfirst as (before & after & Hent & _).
    apply (validRange_lookup rangeMap RangeView i _ name id Hvalid).
    fold entries. rewrite Hent. apply elem_of_middle.
Qed.

Lemma resolveStatus_exact i field t :
  validRange rangeMap ->
  GoStrings.Contains (ToLower (Name field)) "status" = true ->
  let entries := rangeMap RangeStatus i (Options field) in
  let t' := resolveStatus ToLower rangeMap i field t in
  statusFieldID t' = ID field /\
  (((forall e, e ∈ entries -> statusTest ToLower e.1 = false) /\
    statusValueID t' = statusValueID t) \/
   (exists name id,
      firstPassing (statusTest ToLower) entries name id /\
      Options field !! name = Some id /\ statusValueID t' = id)).
Proof.
  intros Hvalid Hname entries t'. subst t'. unfold resolveStatus.
  rewrite Hname. fold entries. cbn. split; [reflexivity|].
  destruct (firstMatch_spec (statusTest ToLower) entries (statusValueID t))
    as [[Heq Hnone] | (name & id & Heq & Hfirst)].
  - left. split; assumption.
  - right. exists name, id. split; [exact Hfirst|]. split; [|exact Heq].
    destruct Hfirst as (before & after & Hent & _).
    apply (validRange_lookup rangeMap RangeStatus i _ name id Hvalid).
    fold entries. rewrite Hent. apply elem_of_middle.
Qed.

(** A field with one option holds no other identifier. *)
Ltac single_option :=
  let name := fresh "name" in
  let H := fresh "H" in
  intros name H; unfold collectOptions, singleSelect, mkOption in H;
  cbn [Options foldl optName optID ssOptions ProjectV2SingleSelectField] in H;
  apply lookup_insert_Some in H as [[_ H]|[_ H]];
  [discriminate|rewrite lookup_empty in H; discriminate].

(** C10. In the loop body, a field whose name matches the predicate of
    a role always overwrites the field identifier of the role. The value
    of the role is overwritten exactly when the field yields an option
    match: it becomes the identifier of the matching option the loop over
    the options selects (for Release the first option with the highest
    version, unless its identifier is the empty string; for View, Board
    and Status the first option that passes the test), and it is left as
    an earlier field set it when no option of the field matches. So the
    update sent for a role can pair the identifier of one field with an
    option of another, earlier field: with two matching fields for each of
    the four roles, the second without a matching option, each of the
    four updates names the second field and an option of the first. *)
Theorem resolveField_later_field_overwrites
    (board : string) (i : nat) (field : ProjectFieldInfo) (t : Targets) :
  validRange rangeMap ->
  let t' := resolveField ToLower rangeMap board i field t in
  (GoStrings.Contains (ToLower (Name field)) "k8s release" = true ->
   let entries := rangeMap RangeRelease i (Options field) in
   k8sReleaseFieldID t' = ID field /\
   (((forall e, e ∈ entries -> extractVersion e.1 = "") /\
     k8sReleaseValueID t' = k8sReleaseValueID t) \/
    (exists name id,
       firstLatest entries name id /\ Options field !! name = Some id /\
       k8sReleaseValueID t' =
         if decide (id = strID "") then k8sReleaseValueID t else id))) /\
  (GoStrings.Contains (ToLower (Name field)) "view" = true ->
   let entries := rangeMap RangeView i (Options field) in
   viewFieldID t' = ID field /\
   (((forall e, e ∈ entries -> viewTest ToLower e.1 = false) /\
     viewValueID t' = viewValueID t) \/
    (exists name id,
       firstPassing (viewTest ToLower) entries name id /\
       Options field !! name = Some id /\ viewValueID t' = id))) /\
  (GoStrings.Contains (ToLower (Name field)) "board" = true ->
   let entries := rangeMap RangeBoard i (Options field) in
   boardFieldID t' = ID field /\
   (((forall e, e ∈ entries -> boardTest ToLower board e.1 = false) /\
     boardValueID t' = boardValueID t) \/
    (exists name id,
       firstPassing (boardTest ToLower board) entries name id /\
       Options field !! name = Some id /\ boardValueID t' = id))) /\
  (GoStrings.Contains (ToLower (Name field)) "status" = true ->
   let entries := rangeMap RangeStatus i (Options field) in
   statusFieldID t' = ID field /\
   (((forall e, e ∈ entries -> statusTest ToLower e.1 = false) /\
     statusValueID t' = statusValueID t) \/
    (exists name id,
       firstPassing (statusTest ToLower) entries name id /\
       Options field !! name = Some id /\ statusValueID t' = id))) /\
  (let run :=
     CreateDraftIssue GoStrings.ToLowerASCII rangeForward
       (remoteOf pairedSchema []) (NewProjectManager "token")
       "flake: TestFoo" "body text" "sig-release-master-blocking" World0 in
   exists rel1 rel2 view1 view2 status1 status2 board1 board2,
     collectFields pairedSchema [] =
       [rel1; rel2; view1; view2; status1; status2; board1; board2] /\
     updatePairs (calls run.2) =
       [ (ID rel2, Some "R1"); (ID view2, Some "V1");
         (ID status2, Some "S1"); (ID board2, Some "B1") ] /\
     (Options rel1 !! "v1.30" = Some (strID "R1") /\ ID rel1 <> ID rel2 /\
      forall name, Options rel2 !! name <> Some (strID "R1")) /\
     (Options view1 !! "Issue-Tracking" = Some (strID "V1") /\
      ID view1 <> ID view2 /\
      forall name, Options view2 !! name <> Some (strID "V1")) /\
     (Options status1 !! "Drafting" = Some (strID "S1") /\
      ID status1 <> ID status2 /\
      forall name, Options status2 !! name <> Some (strID "S1")) /\
     (Options board1 !! "master-blocking" = Some (strID "B1") /\
      ID board1 <> ID board2 /\
      forall name, Options board2 !! name <> Some (strID "B1"))).
Proof.
  intros Hvalid t'. subst t'.
  destruct (resolveField_release board i field t) as [-> ->].
  destruct (resolveField_view board i field t) as [-> ->].
  destruct (resolveField_board board i field t) as [-> ->].
  destruct (resolveField_status board i field t) as [-> ->].
  split; [|split; [|split; [|split]]].
  - intros Hname. apply (resolveRelease_spec i field t Hvalid Hname).
  - intros Hname. apply (resolveView_exact i field t Hvalid Hname).
  - intros Hname. apply (resolveBoard_spec board i field t Hvalid Hname).
  - intros Hname. apply (resolveStatus_exact i field t Hvalid Hname).
  - cbn zeta. eexists _, _, _, _, _, _, _, _. split; [reflexivity|].
    split; [vm_compute; reflexivity|].
    split; [|split; [|split]];
      (split; [reflexivity|]; split; [discriminate|single_option]).
Qed.

End resolver.

(** ** The theorems at work on the example fields *)

Lemma resolveField_release_latest_witness :
  k8sReleaseFieldID
    (resolveField GoStrings.ToLowerASCII rangeBackward
       "sig-release-master-blocking" 0 releaseField Targets0) = strID "F_rel" /\
  k8sReleaseValueID
    (resolveField GoStrings.ToLowerASCII rangeBackward
       "sig-release-master-blocking" 0 releaseField Targets0) = strID "id2".
Proof.
  destruct (resolveField_release_latest GoStrings.ToLowerASCII rangeBackward
              "sig-release-master-blocking" 0 releaseField Targets0
              validRange_backward eq_refl) as (_ & Hid & _ & Hex).
  split; [exact Hid|]. apply Hex. reflexivity.
Defined.

Lemma resolveField_board_first_match_witness :
  boardFieldID
    (resolveField GoStrings.ToLowerASCII rangeBackward
       "sig-release-master-blocking" 0 boardField Targets0) = strID "F_board" /\
  rangeBackward RangeBoard 0%nat (Options boardField)
    ≡ₚ map_to_list (Options boardField).
Proof.
  destruct (resolveField_board_first_match GoStrings.ToLowerASCII rangeBackward
              "sig-release-master-blocking" 0 boardField Targets0
              validRange_backward eq_refl) as (Hperm & Hid & _).
  split; [exact Hid|exact Hperm].
Defined.

Lemma resolveField_later_field_overwrites_witness :
  let entries := rangeForward RangeBoard 0%nat (Options boardField) in
  let t := resolveField GoStrings.ToLowerASCII rangeForward
             "sig-release-master-blocking" 0 boardField Targets0 in
  boardFieldID t = strID "F_board" /\
  (((forall e, e ∈ entries ->
       boardTest GoStrings.ToLowerASCII "sig-release-master-blocking" e.1 = false) /\
    boardValueID t = nilID) \/
   (exists name id,
      firstPassing (boardTest GoStrings.ToLowerASCII "sig-release-master-blocking")
        entries name id /\
      Options boardField !! name = Some id /\ boardValueID t = id)).
Proof.
  destruct (resolveField_later_field_overwrites GoStrings.ToLowerASCII rangeForward
              "sig-release-master-blocking" 0 boardField Targets0
              validRange_forward) as (_ & _ & Hboard & _).
  apply Hboard. reflexivity.
Defined.

(** C3 fails as stated: the options v1.32 and 1.32, discovered in this
    order, yield the same version; which of them is selected follows the
    order in which the map is visited, and both orders are possible. *)
Lemma release_tie_follows_range_order :
  let discovered := collectFields tieSchema [] in
  validRange rangeForward /\ validRange rangeBackward /\
  k8sReleaseValueID
    (resolveFields GoStrings.ToLowerASCII rangeForward "" discovered) = strID "idB" /\
  k8sReleaseValueID
    (resolveFields GoStrings.ToLowerASCII rangeBackward "" discovered) = strID "idA".
Proof.
  cbn zeta. split; [exact validRange_forward|]. split; [exact validRange_backward|].
  split; vm_compute; reflexivity.
Qed.

(** C4 fails as stated: the option Master-Blocking, lower-cased, occurs in
    the lower-cased board string, yet no Board value is selected, because
    the board string is compared as the caller wrote it. *)
Lemma board_string_is_not_lowered :
  let board := "SIG-RELEASE-MASTER-BLOCKING" in
  let discovered := collectFields boardSchema [] in
  GoStrings.Contains (GoStrings.ToLowerASCII board)
    (GoStrings.ToLowerASCII "Master-Blocking") = true /\
  boardFieldID
    (resolveFields GoStrings.ToLowerASCII rangeForward board discovered)
    = strID "F_board" /\
  boardValueID
    (resolveFields GoStrings.ToLowerASCII rangeForward board discovered) = nilID /\
  boardValueID
    (resolveFields GoStrings.ToLowerASCII rangeBackward board discovered) = nilID.
Proof. cbn zeta. repeat split; vm_compute; reflexivity. Qed.

(* ===================================================================== *)
(** * Properties of [CreateDraftIssue]                                    *)
(* ===================================================================== *)

Section creator.
Variable ToLower : string -> string.
Variable rangeMap : RangeOrder.
Variable api : Remote.

Lemma applyUpdates_run client g itemID updates w :
  applyUpdates api client g itemID updates w =
    (tt, {| calls := calls w ++ (attempt client g itemID <$> List.filter updateGuard updates);
            stdout := stdout w ++
              warningsOf api client g itemID (calls w) (List.filter updateGuard updates) |}).
Proof.
  revert w. induction updates as [|update rest IH]; intros [cs out].
  - simpl. rewrite !app_nil_r. reflexivity.
  - cbn [applyUpdates List.filter].
    unfold mbind, M_bind. destruct (updateGuard update).
    + unfold MutateUpdate, mbind, M_bind, seen, send, mret, M_ret, Printf.
      cbn [calls stdout fmap list_fmap warningsOf].
      destruct (serveUpdate api cs (AccessToken client) (updateInput g itemID update));
        rewrite IH; cbn [calls stdout];
        rewrite <- !app_assoc; reflexivity.
    + unfold mret, M_ret. apply IH.
Qed.


(** The guard compares interface values, and the nil interface is not the
    empty string: a role that no field matched passes the guard too. *)
Lemma updateGuard_nil name :
  updateGuard {| fieldID := nilID; optionID := nilID; fieldName := name |} = true.
Proof. reflexivity. Qed.


(** The run of [CreateDraftIssue] on a manager that has a client. *)
Lemma CreateDraftIssue_run g client title body board w :
  githubClient g = Some client ->
  let token := AccessToken client in
  let query := QueryFields token (strID (projectID g)) in
  let inputDraft := {| draftProjectID := strID (projectID g);
                       draftTitle := title; draftBody := Some body |} in
  let create := AddDraftIssue token inputDraft in
  CreateDraftIssue ToLower rangeMap api g title body board w =
    match serveQuery api (calls w) token (strID (projectID g)) with
    | inl err =>
        (Some (fmt_Errorf_w "failed to get project fields: "
                 (fmt_Errorf_w "failed to query project fields: " err)),
         {| calls := calls w ++ [query]; stdout := stdout w |})
    | inr nodes =>
        match serveAddDraft api (calls w ++ [query]) token inputDraft with
        | inl err =>
            (Some (fmt_Errorf_w "failed to create draft issue: " err),
             {| calls := calls w ++ [query; create]; stdout := stdout w |})
        | inr itemID =>
            let ups := List.filter updateGuard
              (fieldUpdates
                 (resolveFields ToLower rangeMap board (collectFields nodes []))) in
            (None,
             {| calls := calls w ++ [query; create] ++ (attempt client g itemID <$> ups);
                stdout := stdout w ++
                  warningsOf api client g itemID (calls w ++ [query; create]) ups |})
        end
    end.
Proof.
  intros Hc token query inputDraft create.
  unfold CreateDraftIssue. rewrite Hc.
  unfold mbind at 1. unfold M_bind at 1.
  rewrite (GetProjectFields_run api g client w Hc). cbn zeta.
  fold token. fold query.
  destruct (serveQuery api (calls w) token (strID (projectID g))) as [err|nodes];
    [reflexivity|].
  unfold MutateAddDraft, mbind, M_bind, seen, send, mret, M_ret.
  cbn [calls stdout]. fold inputDraft. fold token.
  destruct (serveAddDraft api (calls w ++ [query]) token inputDraft) as [err|itemID].
  - rewrite <- app_assoc. reflexivity.
  - rewrite applyUpdates_run. cbn [calls stdout].
    rewrite <- !app_assoc. reflexivity.
Qed.


(** C2. When the creation of the draft item fails, [CreateDraftIssue]
    returns an error that wraps the error of the mutation, and has sent
    the discovery query and the creation only: no field update. When
    discovery fails, it returns an error that wraps the error of the
    query, and has sent the query only: no mutation. *)
Theorem CreateDraftIssue_fatal_errors
    (g : ProjectManager) (client : Client) (title body board : string)
    (w : World) :
  let token := AccessToken client in
  let query := QueryFields token (strID (projectID g)) in
  let inputDraft := {| draftProjectID := strID (projectID g);
                       draftTitle := title; draftBody := Some body |} in
  let run := CreateDraftIssue ToLower rangeMap api g title body board w in
  githubClient g = Some client ->
  (forall nodes err,
     serveQuery api (calls w) token (strID (projectID g)) = inr nodes ->
     serveAddDraft api (calls w ++ [query]) token inputDraft = inl err ->
     run.1 = Some (fmt_Errorf_w "failed to create draft issue: " err) /\
     (run.1 : option error) ≫= Unwrap = Some err /\
     calls run.2 = calls w ++ [query; AddDraftIssue token inputDraft] /\
     List.filter isUpdate (calls run.2) = List.filter isUpdate (calls w) /\
     stdout run.2 = stdout w) /\
  (forall err,
     serveQuery api (calls w) token (strID (projectID g)) = inl err ->
     run.1 = Some (fmt_Errorf_w "failed to get project fields: "
                     (fmt_Errorf_w "failed to query project fields: " err)) /\
     ((run.1 : option error) ≫= Unwrap) ≫= Unwrap = Some err /\
     calls run.2 = calls w ++ [query] /\
     List.filter isMutation (calls run.2) = List.filter isMutation (calls w) /\
     stdout run.2 = stdout w).
Proof.
  intros token query inputDraft run Hc. subst run.
  rewrite (CreateDraftIssue_run g client title body board w Hc).
  cbn zeta. fold token. fold query. fold inputDraft. split.
  - intros nodes err Hq Ha. rewrite Hq, Ha. cbn [fst snd calls stdout].
    repeat split; try reflexivity.
    rewrite List.filter_app. simpl. apply app_nil_r.
  - intros err Hq. rewrite Hq. cbn [fst snd calls stdout].
    repeat split; try reflexivity.
    rewrite List.filter_app. simpl. apply app_nil_r.
Qed.

(** C5, as the code has it. [NewProjectManager] always succeeds and
    always installs a client, with whatever token it is given, the empty
    one included. An operation on a manager without a client fails with
    the error "github GraphQL client is nil" and sends nothing. An
    operation on a manager made by [NewProjectManager] starts by sending
    the discovery query with the token of the manager, also when the
    token is empty, and never returns that error. *)
Theorem operations_without_client
    (g : ProjectManager) (title body board token : string) (w : World) :
  githubClient (NewProjectManager token) = Some {| AccessToken := token |} /\
  (githubClient g = None ->
   GetProjectFields api g w =
     (inl (errors_New "github GraphQL client is nil"), w) /\
   CreateDraftIssue ToLower rangeMap api g title body board w =
     (Some (errors_New "github GraphQL client is nil"), w)) /\
  ((GetProjectFields api (NewProjectManager token) w).1 <>
     inl (errors_New "github GraphQL client is nil") /\
   exists rest,
     calls (GetProjectFields api (NewProjectManager token) w).2 =
       calls w ++ QueryFields token (strID PROJECT_ID) :: rest) /\
  ((CreateDraftIssue ToLower rangeMap api (NewProjectManager token)
      title body board w).1 <> Some (errors_New "github GraphQL client is nil") /\
   exists rest,
     calls (CreateDraftIssue ToLower rangeMap api (NewProjectManager token)
              title body board w).2 =
       calls w ++ QueryFields token (strID PROJECT_ID) :: rest).
Proof.
  split; [reflexivity|]. split; [|split].
  - intros Hn. unfold GetProjectFields, CreateDraftIssue. rewrite Hn.
    split; reflexivity.
  - rewrite (GetProjectFields_run api (NewProjectManager token)
               {| AccessToken := token |} w eq_refl).
    cbn zeta. destruct (serveQuery _ _ _ _);
      (split; [discriminate|exists []; reflexivity]).
  - rewrite (CreateDraftIssue_run (NewProjectManager token)
               {| AccessToken := token |} title body board w eq_refl).
    cbn zeta. cbn [AccessToken projectID NewProjectManager].
    destruct (serveQuery _ _ _ _) as [err|nodes];
      [split; [discriminate|exists []; reflexivity]|].
    destruct (serveAddDraft _ _ _ _) as [err|itemID];
      (split; [discriminate|eexists; reflexivity]).
Qed.

End creator.

(** ** The theorems at work on the example project *)


Lemma CreateDraftIssue_fatal_errors_witness :
  (let run :=
     CreateDraftIssue GoStrings.ToLowerASCII rangeForward
       (rejectingRemote boardSchema) (NewProjectManager "token")
       "flake: TestFoo" "body text" "sig-release-master-blocking" World0 in
   run.1 = Some (fmt_Errorf_w "failed to create draft issue: "
                   (errors_New "validation error")) /\
   List.filter isUpdate (calls run.2) = []) /\
  (let run :=
     CreateDraftIssue GoStrings.ToLowerASCII rangeForward
       (guardedRemote boardSchema) (NewProjectManager "")
       "flake: TestFoo" "body text" "sig-release-master-blocking" World0 in
   run.1 = Some (fmt_Errorf_w "failed to get project fields: "
                   (fmt_Errorf_w "failed to query project fields: " unauthorized)) /\
   List.filter isMutation (calls run.2) = []).
Proof.
  split; cbn zeta.
  - destruct (CreateDraftIssue_fatal_errors GoStrings.ToLowerASCII rangeForward
                (rejectingRemote boardSchema) (NewProjectManager "token")
                {| AccessToken := "token" |}
                "flake: TestFoo" "body text" "sig-release-master-blocking" World0
                eq_refl) as [Hcreate _].
    destruct (Hcreate boardSchema (errors_New "validation error") eq_refl eq_refl)
      as (Hres & _ & _ & Hupd & _).
    split; [exact Hres|exact Hupd].
  - destruct (CreateDraftIssue_fatal_errors GoStrings.ToLowerASCII rangeForward
                (guardedRemote boardSchema) (NewProjectManager "")
                {| AccessToken := "" |}
                "flake: TestFoo" "body text" "sig-release-master-blocking" World0
                eq_refl) as [_ Hquery].
    destruct (Hquery unauthorized eq_refl) as (Hres & _ & _ & Hmut & _).
    split; [exact Hres|exact Hmut].
Defined.

Lemma operations_without_client_witness :
  GetProjectFields (guardedRemote boardSchema) unconfigured World0 =
    (inl (errors_New "github GraphQL client is nil"), World0) /\
  CreateDraftIssue GoStrings.ToLowerASCII rangeForward (guardedRemote boardSchema)
      unconfigured "flake: TestFoo" "body text" "sig-release-master-blocking" World0 =
    (Some (errors_New "github GraphQL client is nil"), World0).
Proof.
  destruct (operations_without_client GoStrings.ToLowerASCII rangeForward
              (guardedRemote boardSchema) unconfigured
              "flake: TestFoo" "body text" "sig-release-master-blocking" ""
              World0) as (_ & Hnil & _).
  apply Hnil. reflexivity.
Defined.

(** C5 fails as stated: a manager built without a credential sends the
    discovery query, with the empty token, and what comes back is the
    error of the remote, not the error of a missing client. *)
Lemma empty_token_reaches_remote :
  let run := GetProjectFields (guardedRemote boardSchema) (NewProjectManager "") World0 in
  let run' :=
    CreateDraftIssue GoStrings.ToLowerASCII rangeForward (guardedRemote boardSchema)
      (NewProjectManager "") "flake: TestFoo" "body text"
      "sig-release-master-blocking" World0 in
  run.1 = inl (fmt_Errorf_w "failed to query project fields: " unauthorized) /\
  run.1 <> inl (errors_New "github GraphQL client is nil") /\
  calls run.2 = [QueryFields "" (strID PROJECT_ID)] /\
  run'.1 <> Some (errors_New "github GraphQL client is nil") /\
  calls run'.2 = [QueryFields "" (strID PROJECT_ID)].
Proof. cbn zeta. repeat split; try reflexivity; vm_compute; discriminate. Qed.

(* ===================================================================== *)
(** * Further properties of the version utilities                         *)
(* ===================================================================== *)

Lemma Split_nonempty s sep : GoStrings.Split s sep <> [].
Proof.
  induction s as [|c s IH]; simpl; [discriminate|].
  destruct (Ascii.eqb c sep); [discriminate|].
  destruct (GoStrings.Split s sep); discriminate.
Qed.

Lemma Split_app_sep a t sep :
  GoStrings.Split (a +:+ String sep t) sep =
  GoStrings.Split a sep ++ GoStrings.Split t sep.
Proof.
  induction a as [|c a IH].
  - rewrite append_empty. simpl. rewrite Ascii.eqb_refl. reflexivity.
  - rewrite append_cons. cbn [GoStrings.Split]. rewrite IH.
    destruct (Ascii.eqb c sep); [reflexivity|].
    pose proof (Split_nonempty a sep).
    destruct (GoStrings.Split a sep); [contradiction|reflexivity].
Qed.

Lemma Split_digits d : allDigits d = true -> GoStrings.Split d "." = [d].
Proof.
  unfold allDigits. induction d as [|x d IH]; intros H; [reflexivity|].
  simpl in H. apply andb_true_iff in H as [Hx Hd].
  cbn [GoStrings.Split]. rewrite (digit_not_dot x Hx), (IH Hd). reflexivity.
Qed.

Lemma numAt_snoc_zero parts i : numAt (parts ++ ["0"]) i = numAt parts i.
Proof.
  rewrite !numAt_lookup, fmap_app.
  destruct (Nat.lt_ge_cases i (length parts)) as [Hi|Hi].
  - rewrite lookup_app_l by (rewrite length_fmap; exact Hi). reflexivity.
  - rewrite lookup_app_r by (rewrite length_fmap; exact Hi).
    rewrite (lookup_ge_None_2 (_ <$> parts)) by (rewrite length_fmap; exact Hi).
    rewrite length_fmap.
    destruct (i - length parts)%nat as [|k]; [reflexivity|].
    destruct k; reflexivity.
Qed.

Lemma loop_numAt_ext p1 p2 q1 q2 n i :
  (forall j, numAt p1 j = numAt q1 j) -> (forall j, numAt p2 j = numAt q2 j) ->
  compareVersions_loop p1 p2 n i = compareVersions_loop q1 q2 n i.
Proof.
  intros H1 H2. revert i. induction n as [|n IH]; intros i; [reflexivity|].
  rewrite !loop_numAt, H1, H2, IH. reflexivity.
Qed.

Lemma compareVersions_trailing_zero_l a b :
  compareVersions (a +:+ ".0") b = compareVersions a b.
Proof.
  set (n := (S (length (GoStrings.Split a ".")) `max`
             length (GoStrings.Split b "."))%nat).
  assert (Hs : GoStrings.Split (a +:+ ".0") "." = GoStrings.Split a "." ++ ["0"])
    by apply (Split_app_sep a "0" ".").
  rewrite (compareVersions_bound (a +:+ ".0") b n), (compareVersions_bound a b n);
    try (subst n; rewrite ?Hs, ?length_app; simpl; lia).
  rewrite Hs. apply loop_numAt_ext; [apply numAt_snoc_zero|reflexivity].
Qed.

(** X1. A trailing component ".0" never changes a comparison, on either
    side: missing components count as zero. *)
Theorem compareVersions_trailing_zero (a b : string) :
  compareVersions (a +:+ ".0") b = compareVersions a b /\
  compareVersions b (a +:+ ".0") = compareVersions b a.
Proof.
  split; [apply compareVersions_trailing_zero_l|].
  rewrite (compareVersions_opp b), compareVersions_trailing_zero_l.
  symmetry. apply compareVersions_opp.
Qed.

(** X2. [compareVersions] returns -1, 0 or 1 and nothing else, whatever
    the two strings are. *)
Theorem compareVersions_three_values (a b : string) :
  compareVersions a b = -1 \/ compareVersions a b = 0 \/ compareVersions a b = 1.
Proof. rewrite compareVersions_unfold. apply loop_range. Qed.

Lemma append_empty_r (s : string) : s +:+ "" = s.
Proof. induction s as [|x s IH]; [reflexivity|]. rewrite append_cons, IH. reflexivity. Qed.

Lemma versionAt_exact d1 d2 rest :
  d1 <> "" -> d2 <> "" -> allDigits d1 = true -> allDigits d2 = true ->
  versionAt (d1 +:+ "." +:+ d2 +:+ rest) =
    Some (d1, d2 +:+ takeDigits rest, dropDigits rest).
Proof.
  intros N1 N2 A1 A2. unfold versionAt.
  rewrite takeDigits_app, dropDigits_app by exact A1.
  rewrite append_cons, append_empty.
  cbn [takeDigits dropDigits].
  change (strconv.isDigit ".") with false. cbv iota.
  rewrite append_empty_r.
  destruct (String.eqb_spec d1 ""); [contradiction|].
  change (Ascii.eqb "." ".") with true. cbv iota.
  rewrite takeDigits_app, dropDigits_app by exact A2.
  destruct (allDigits_head d2 N2 A2) as (x2 & d2' & -> & _).
  rewrite append_cons. cbn [String.eqb]. reflexivity.
Qed.

Lemma versionHere_digits s :
  versionAt s <> None -> versionHere s = versionAt s.
Proof.
  intros H. unfold versionHere. destruct s as [|x s']; [reflexivity|].
  destruct (Ascii.eqb_spec x "v") as [->|_]; [|reflexivity].
  rewrite versionAt_v in H. contradiction.
Qed.

(** What [extractVersion] returns is empty or two runs of digits around a
    dot. *)
Lemma extractVersion_shape text :
  extractVersion text = "" \/
  exists d1 d2,
    extractVersion text = d1 +:+ "." +:+ d2 /\
    d1 <> "" /\ d2 <> "" /\ allDigits d1 = true /\ allDigits d2 = true.
Proof.
  induction text as [|x text IH]; rewrite extractVersion_step.
  - left. reflexivity.
  - destruct (versionHere (String x text)) as [[[d1 d2] rest]|] eqn:Hhere.
    + right. apply versionHere_Some in Hhere as (v & _ & _ & N1 & N2 & A1 & A2 & _).
      exists d1, d2. tauto.
    + exact IH.
Qed.

Lemma extractVersion_of_version d1 d2 :
  d1 <> "" -> d2 <> "" -> allDigits d1 = true -> allDigits d2 = true ->
  extractVersion (d1 +:+ "." +:+ d2) = d1 +:+ "." +:+ d2.
Proof.
  intros N1 N2 A1 A2.
  pose proof (versionAt_exact d1 d2 "" N1 N2 A1 A2) as Hat.
  rewrite !append_empty_r in Hat. cbn [takeDigits dropDigits] in Hat.
  rewrite ?append_empty_r in Hat.
  rewrite extractVersion_step, versionHere_digits, Hat by (rewrite Hat; discriminate).
  reflexivity.
Qed.

(** X3. [extractVersion] is idempotent: a version it returned is extracted
    from itself unchanged, and the empty result stays empty. *)
Theorem extractVersion_idempotent (text : string) :
  extractVersion (extractVersion text) = extractVersion text.
Proof.
  destruct (extractVersion_shape text) as [->|(d1 & d2 & -> & N1 & N2 & A1 & A2)].
  - reflexivity.
  - apply extractVersion_of_version; assumption.
Qed.

(** X4. One more "v" in front of a text never changes the version that
    is extracted from it. *)
Theorem extractVersion_leading_v (text : string) :
  extractVersion (String "v" text) = extractVersion text.
Proof.
  rewrite (extractVersion_step (String "v" text)).
  unfold versionHere at 1. change (Ascii.eqb "v" "v") with true. cbv iota.
  rewrite versionAt_v.
  destruct (versionAt text) as [[[d1 d2] rest]|] eqn:Hat; [|reflexivity].
  rewrite (extractVersion_step text), versionHere_digits, Hat
    by (rewrite Hat; discriminate).
  reflexivity.
Qed.

Lemma digit_not_sign x : strconv.isDigit x = true -> strconv.isSign x = false.
Proof.
  intros Hx. unfold strconv.isSign.
  destruct (Ascii.eqb_spec x "-"); [subst; discriminate|].
  destruct (Ascii.eqb_spec x "+"); [subst; discriminate|]. reflexivity.
Qed.

Lemma digits_unsigned d :
  d <> "" -> allDigits d = true ->
  unsignedPart d = d /\ isNegative d = false /\ numeric d = true.
Proof.
  intros N A. destruct (allDigits_head d N A) as (x & d' & -> & Hx).
  unfold numeric. cbn [unsignedPart isNegative].
  rewrite (digit_not_sign x Hx), A.
  split; [reflexivity|]. split; [|reflexivity].
  destruct (Ascii.eqb_spec x "-"); [subst; discriminate|reflexivity].
Qed.

(** A run of digits always parses: to its value, or to the largest [int]
    with a range error, never with a syntax error. *)
Lemma Atoi_digits d :
  d <> "" -> allDigits d = true ->
  (strconv.Atoi d).1 = Z.min strconv.maxInt (digitsValue d 0) /\
  (strconv.Atoi d).2 <> Some strconv.ErrSyntax.
Proof.
  intros N A. destruct (digits_unsigned d N A) as (Hu & Hneg & Hnum).
  split.
  - rewrite Atoi_saturating. unfold saturatingParse, signedValue, saturate.
    rewrite Hnum, Hu, Hneg. cbn [orb].
    pose proof (digitsValue_ge d 0 ltac:(lia)).
    unfold strconv.minInt, strconv.maxInt, strconv.intSize.
    change (2 ^ (64 - 1)) with 9223372036854775808. lia.
  - unfold strconv.Atoi.
    destruct (allDigits_head d N A) as (x & d' & Hd & Hx).
    destruct ((0 <? String.length d)%nat && (String.length d <? 19)%nat).
    + rewrite Hd. rewrite (digit_not_sign x Hx). rewrite <- Hd.
      rewrite fastLoop_spec, A. rewrite Hd. cbn [snd]. discriminate.
    + unfold strconv.ParseInt. rewrite Hd. rewrite (digit_not_sign x Hx).
      rewrite <- Hd. rewrite ParseUint_spec, A.
      replace (negb (String.eqb d "")) with true
        by (rewrite Hd; reflexivity).
      cbn [andb].
      destruct (2 ^ 64 <=? digitsValue d 0).
      * destruct (negb _ && _); [cbn [snd]; discriminate|].
        destruct (_ && _); cbn [snd]; discriminate.
      * destruct (negb _ && _); [cbn [snd]; discriminate|].
        destruct (_ && _); cbn [snd]; discriminate.
Qed.

Lemma Split_version d1 d2 :
  allDigits d1 = true -> allDigits d2 = true ->
  GoStrings.Split (d1 +:+ "." +:+ d2) "." = [d1; d2].
Proof.
  intros A1 A2. rewrite append_cons, append_empty.
  rewrite (Split_app_sep d1 d2 "."), !Split_digits by assumption. reflexivity.
Qed.

(** X5. Two versions that [extractVersion] returned are compared by their
    first numbers and, when these are equal, by their second numbers;
    each number is the value of its digits, capped at the largest [int].
    None of the four numbers fails to parse with a syntax error. *)
Theorem extracted_versions_compare (s t : string) :
  extractVersion s <> "" -> extractVersion t <> "" ->
  exists a1 a2 b1 b2,
    extractVersion s = a1 +:+ "." +:+ a2 /\
    extractVersion t = b1 +:+ "." +:+ b2 /\
    Forall (fun d => (strconv.Atoi d).2 <> Some strconv.ErrSyntax)
      [a1; a2; b1; b2] /\
    compareVersions (extractVersion s) (extractVersion t) =
      if Z.min strconv.maxInt (digitsValue a1 0) =?
         Z.min strconv.maxInt (digitsValue b1 0)
      then cmpZ (Z.min strconv.maxInt (digitsValue a2 0))
                (Z.min strconv.maxInt (digitsValue b2 0))
      else cmpZ (Z.min strconv.maxInt (digitsValue a1 0))
                (Z.min strconv.maxInt (digitsValue b1 0)).
Proof.
  intros Hs Ht.
  destruct (extractVersion_shape s) as [?|(a1 & a2 & Es & Na1 & Na2 & Aa1 & Aa2)];
    [contradiction|].
  destruct (extractVersion_shape t) as [?|(b1 & b2 & Et & Nb1 & Nb2 & Ab1 & Ab2)];
    [contradiction|].
  exists a1, a2, b1, b2. rewrite Es, Et.
  destruct (Atoi_digits a1 Na1 Aa1) as [Va1 Ea1].
  destruct (Atoi_digits a2 Na2 Aa2) as [Va2 Ea2].
  destruct (Atoi_digits b1 Nb1 Ab1) as [Vb1 Eb1].
  destruct (Atoi_digits b2 Nb2 Ab2) as [Vb2 Eb2].
  split; [reflexivity|]. split; [reflexivity|].
  split; [repeat constructor; assumption|].
  rewrite compareVersions_unfold, !Split_version by assumption.
  change (length [a1; a2] `max` length [b1; b2])%nat with 2%nat.
  rewrite !loop_numAt.
  change (numAt [a1; a2] 0) with (strconv.Atoi a1).1.
  change (numAt [b1; b2] 0) with (strconv.Atoi b1).1.
  change (numAt [a1; a2] 1) with (strconv.Atoi a2).1.
  change (numAt [b1; b2] 1) with (strconv.Atoi b2).1.
  rewrite Va1, Va2, Vb1, Vb2. unfold cmpZ. cbn [compareVersions_loop].
  destruct (Z.eqb_spec (Z.min strconv.maxInt (digitsValue a1 0))
                       (Z.min strconv.maxInt (digitsValue b1 0))) as [->|Hne].
  - rewrite Z.gtb_ltb, !Z.ltb_irrefl. reflexivity.
  - destruct (Z.gtb_spec (Z.min strconv.maxInt (digitsValue a1 0))
                         (Z.min strconv.maxInt (digitsValue b1 0))); [reflexivity|].
    destruct (Z.ltb_spec (Z.min strconv.maxInt (digitsValue a1 0))
                         (Z.min strconv.maxInt (digitsValue b1 0))); [reflexivity|lia].
Qed.

Lemma extracted_versions_compare_witness :
  exists a1 a2 b1 b2,
    extractVersion "v1.32 stable" = a1 +:+ "." +:+ a2 /\
    extractVersion "release 1.4" = b1 +:+ "." +:+ b2 /\
    compareVersions (extractVersion "v1.32 stable") (extractVersion "release 1.4") =
      if Z.min strconv.maxInt (digitsValue a1 0) =?
         Z.min strconv.maxInt (digitsValue b1 0)
      then cmpZ (Z.min strconv.maxInt (digitsValue a2 0))
                (Z.min strconv.maxInt (digitsValue b2 0))
      else cmpZ (Z.min strconv.maxInt (digitsValue a1 0))
                (Z.min strconv.maxInt (digitsValue b1 0)).
Proof.
  destruct (extracted_versions_compare "v1.32 stable" "release 1.4")
    as (a1 & a2 & b1 & b2 & H1 & H2 & _ & H3);
    [vm_compute; discriminate|vm_compute; discriminate|].
  exists a1, a2, b1, b2. split; [exact H1|]. split; [exact H2|exact H3].
Defined.

(* ===================================================================== *)
(** * Further properties of field discovery                               *)
(* ===================================================================== *)

Lemma collectOptions_dom opts :
  dom (collectOptions opts) = list_to_set (optName <$> opts).
Proof.
  induction opts as [|o opts IH] using rev_ind; [apply dom_empty_L|].
  rewrite collectOptions_snoc, dom_insert_L, IH, fmap_app, list_to_set_app_L.
  cbn [fmap list_fmap list_to_set]. rewrite union_empty_r_L.
  apply (comm_L (∪)).
Qed.

Lemma collectOptions_size opts : (size (collectOptions opts) <= length opts)%nat.
Proof.
  induction opts as [|o opts IH] using rev_ind.
  { change (collectOptions []) with (∅ : gmap string g4_ID).
    rewrite map_size_empty. simpl. lia. }
  rewrite collectOptions_snoc, length_app. simpl.
  destruct (collectOptions opts !! optName o) eqn:Hl.
  - rewrite map_size_insert_Some by eauto. lia.
  - rewrite map_size_insert_None by exact Hl. lia.
Qed.

Lemma filter_none {A} (P : A -> Prop) `{forall x, Decision (P x)} (l : list A) :
  (forall x, x ∈ l -> ~ P x) -> filter P l = [].
Proof.
  induction l as [|x l IH]; intros Hl; [reflexivity|].
  rewrite filter_cons, decide_False by (apply Hl; left).
  apply IH. intros y Hy. apply Hl. right. exact Hy.
Qed.

(** X6. The option map of a single-select field has the display names of
    its options as keys and no other: it never has more entries than the
    field has options, it has as many when the names are pairwise
    different, and an option replaces every earlier option of the same
    name. *)
Theorem collectOptions_keys (opts : list OptionNode) :
  dom (collectOptions opts) = list_to_set (optName <$> opts) /\
  (size (collectOptions opts) <= length opts)%nat /\
  (NoDup (optName <$> opts) -> size (collectOptions opts) = length opts) /\
  (forall o later,
     optName o ∉ optName <$> later ->
     collectOptions (opts ++ o :: later) !! optName o = Some (optID o)).
Proof.
  split; [apply collectOptions_dom|]. split; [apply collectOptions_size|]. split.
  - intros Hnd. rewrite <- size_dom, collectOptions_dom.
    rewrite size_list_to_set by exact Hnd. apply length_fmap.
  - intros o later Hlater. rewrite collectOptions_lookup. unfold optionNamed.
    rewrite filter_app, filter_cons, decide_True by reflexivity.
    replace (filter (fun o0 => optName o0 = optName o) later) with (@nil OptionNode).
    + rewrite last_snoc. reflexivity.
    + symmetry. apply filter_none. intros o' Ho' Heq.
      apply Hlater. rewrite <- Heq. apply list_elem_of_fmap. eauto.
Qed.

Lemma collectOptions_keys_witness :
  size (collectOptions
          [mkOption "v1.30" "id1"; mkOption "v1.32" "id2"; mkOption "stable" "id3"])
  = 3%nat.
Proof.
  apply (collectOptions_keys
           [mkOption "v1.30" "id1"; mkOption "v1.32" "id2"; mkOption "stable" "id3"]).
  apply (bool_decide_unpack _). vm_compute. exact I.
Defined.

Lemma collectFields_length nodes :
  (length (collectFields nodes []) <= length nodes)%nat.
Proof.
  rewrite <- (Forall2_length _ _ _ (collectFields_normalised nodes)).
  apply length_filter.
Qed.

(** X7. [GetProjectFields] only reads: it prints nothing and sends at most
    one request, the query, never a mutation. When it succeeds, the
    manager has a client, the query was answered, and the result has at
    most as many fields as the answer has children. *)
Theorem GetProjectFields_read_only (api : Remote) (g : ProjectManager) (w : World) :
  let run := GetProjectFields api g w in
  stdout run.2 = stdout w /\
  (exists new,
     calls run.2 = calls w ++ new /\ (length new <= 1)%nat /\
     Forall (fun c => isMutation c = false) new) /\
  (forall fields,
     run.1 = inr fields ->
     exists client nodes,
       githubClient g = Some client /\
       serveQuery api (calls w) (AccessToken client) (strID (projectID g))
         = inr nodes /\
       (length fields <= length nodes)%nat).
Proof.
  cbn zeta. destruct (githubClient g) as [client|] eqn:Hc.
  - rewrite (GetProjectFields_run api g client w Hc). cbn zeta.
    destruct (serveQuery api (calls w) (AccessToken client) (strID (projectID g)))
      as [err|nodes] eqn:Hq; cbn [fst snd calls stdout].
    + split; [reflexivity|]. split.
      * eexists. split; [reflexivity|]. split; [simpl; lia|].
        repeat constructor.
      * intros fields Hf. discriminate.
    + split; [reflexivity|]. split.
      * eexists. split; [reflexivity|]. split; [simpl; lia|].
        repeat constructor.
      * intros fields Hf. injection Hf as <-. exists client, nodes.
        split; [reflexivity|]. split; [exact Hq|]. apply collectFields_length.
  - unfold GetProjectFields. rewrite Hc. cbn.
    split; [reflexivity|]. split.
    + exists []. rewrite app_nil_r. split; [reflexivity|]. split; [simpl; lia|constructor].
    + intros fields Hf. discriminate.
Qed.

(* ===================================================================== *)
(** * Further properties of field resolution: the whole loop              *)
(* ===================================================================== *)

Section resolution.
Variable ToLower : string -> string.
Variable rangeMap : RangeOrder.

(** The four field identifiers after one iteration. *)
Lemma resolveField_fieldIDs board i field t :
  let t' := resolveField ToLower rangeMap board i field t in
  k8sReleaseFieldID t' =
    (if GoStrings.Contains (ToLower (Name field)) "k8s release"
     then ID field else k8sReleaseFieldID t) /\
  viewFieldID t' =
    (if GoStrings.Contains (ToLower (Name field)) "view"
     then ID field else viewFieldID t) /\
  boardFieldID t' =
    (if GoStrings.Contains (ToLower (Name field)) "board"
     then ID field else boardFieldID t) /\
  statusFieldID t' =
    (if GoStrings.Contains (ToLower (Name field)) "status"
     then ID field else statusFieldID t).
Proof.
  cbn zeta.
  unfold resolveField, resolveStatus, resolveBoard, resolveView, resolveRelease.
  destruct (latestOption _) as [lv lid].
  repeat destruct (GoStrings.Contains _ _); repeat split; reflexivity.
Qed.

(** A field whose name does not match a role leaves the value of the role
    alone. *)
Lemma resolveField_values_kept board i field t :
  let t' := resolveField ToLower rangeMap board i field t in
  (GoStrings.Contains (ToLower (Name field)) "k8s release" = false ->
   k8sReleaseValueID t' = k8sReleaseValueID t) /\
  (GoStrings.Contains (ToLower (Name field)) "view" = false ->
   viewValueID t' = viewValueID t) /\
  (GoStrings.Contains (ToLower (Name field)) "board" = false ->
   boardValueID t' = boardValueID t) /\
  (GoStrings.Contains (ToLower (Name field)) "status" = false ->
   statusValueID t' = statusValueID t).
Proof.
  cbn zeta.
  unfold resolveField, resolveStatus, resolveBoard, resolveView, resolveRelease.
  destruct (latestOption _) as [lv lid].
  repeat destruct (GoStrings.Contains _ _);
    repeat split; intros; try discriminate; reflexivity.
Qed.

Lemma resolveFrom_last (proj : Targets -> g4_ID) (P : ProjectFieldInfo -> bool) board :
  (forall i f t,
     proj (resolveField ToLower rangeMap board i f t) =
     if P f then ID f else proj t) ->
  forall fields i t,
    proj (resolveFrom ToLower rangeMap board i fields t) =
    match last (List.filter P fields) with
    | Some f => ID f
    | None => proj t
    end.
Proof.
  intros Hstep fs. induction fs as [|f rest IH]; intros i t; [reflexivity|].
  cbn [resolveFrom List.filter]. rewrite IH, Hstep.
  destruct (P f); [|reflexivity].
  rewrite last_cons. destruct (last (List.filter P rest)); reflexivity.
Qed.

Lemma resolveFrom_value (val : Targets -> g4_ID) (P : ProjectFieldInfo -> bool)
    (Q : ProjectFieldInfo -> g4_ID -> Prop) board :
  (forall i f t,
     val (resolveField ToLower rangeMap board i f t) = val t \/
     (P f = true /\ Q f (val (resolveField ToLower rangeMap board i f t)))) ->
  forall fields i t,
    val (resolveFrom ToLower rangeMap board i fields t) = val t \/
    exists f, f ∈ fields /\ P f = true /\
              Q f (val (resolveFrom ToLower rangeMap board i fields t)).
Proof.
  intros Hstep fs. induction fs as [|f rest IH]; intros i t; [left; reflexivity|].
  cbn [resolveFrom].
  destruct (IH (S i) (resolveField ToLower rangeMap board i f t))
    as [Heq | (f' & Hin & HP & HQ)].
  - rewrite Heq. destruct (Hstep i f t) as [Hkept | [HP HQ]].
    + left. exact Hkept.
    + right. exists f. split; [left|]. split; assumption.
  - right. exists f'. split; [right; exact Hin|]. split; assumption.
Qed.

(** X8. After the loop over the discovered fields, the field identifier
    of each role is that of the last field whose lower-cased name
    contains the words of the role, and the nil interface when no field
    does. *)
Theorem resolveFields_last_matching_field
    (board : string) (fields : list ProjectFieldInfo) :
  let t := resolveFields ToLower rangeMap board fields in
  k8sReleaseFieldID t = lastMatching ToLower "k8s release" fields /\
  viewFieldID t = lastMatching ToLower "view" fields /\
  boardFieldID t = lastMatching ToLower "board" fields /\
  statusFieldID t = lastMatching ToLower "status" fields.
Proof.
  cbn zeta. unfold resolveFields, lastMatching.
  split; [|split; [|split]].
  - apply (resolveFrom_last k8sReleaseFieldID
             (fun f => GoStrings.Contains (ToLower (Name f)) "k8s release")).
    intros i f t. apply (resolveField_fieldIDs board i f t).
  - apply (resolveFrom_last viewFieldID
             (fun f => GoStrings.Contains (ToLower (Name f)) "view")).
    intros i f t. apply (resolveField_fieldIDs board i f t).
  - apply (resolveFrom_last boardFieldID
             (fun f => GoStrings.Contains (ToLower (Name f)) "board")).
    intros i f t. apply (resolveField_fieldIDs board i f t).
  - apply (resolveFrom_last statusFieldID
             (fun f => GoStrings.Contains (ToLower (Name f)) "status")).
    intros i f t. apply (resolveField_fieldIDs board i f t).
Qed.

(** X9. Every value the loop resolves comes from the discovery result:
    the value of a role is the nil interface, or the identifier of an
    option of a discovered field whose name matches the role, and the
    name of that option passes the test of the role. *)
Theorem resolveFields_values_are_options
    (board : string) (fields : list ProjectFieldInfo) :
  validRange rangeMap ->
  let t := resolveFields ToLower rangeMap board fields in
  (k8sReleaseValueID t = nilID \/
   exists f name, f ∈ fields /\
     GoStrings.Contains (ToLower (Name f)) "k8s release" = true /\
     Options f !! name = Some (k8sReleaseValueID t) /\ extractVersion name <> "") /\
  (viewValueID t = nilID \/
   exists f name, f ∈ fields /\
     GoStrings.Contains (ToLower (Name f)) "view" = true /\
     Options f !! name = Some (viewValueID t) /\ viewTest ToLower name = true) /\
  (boardValueID t = nilID \/
   exists f name, f ∈ fields /\
     GoStrings.Contains (ToLower (Name f)) "board" = true /\
     Options f !! name = Some (boardValueID t) /\
     GoStrings.Contains board (ToLower name) = true) /\
  (statusValueID t = nilID \/
   exists f name, f ∈ fields /\
     GoStrings.Contains (ToLower (Name f)) "status" = true /\
     Options f !! name = Some (statusValueID t) /\ statusTest ToLower name = true).
Proof.
  intros Hvalid. cbn zeta. unfold resolveFields.
  split; [|split; [|split]].
  - destruct (resolveFrom_value k8sReleaseValueID
                (fun f => GoStrings.Contains (ToLower (Name f)) "k8s release")
                (fun f v => exists name, Options f !! name = Some v /\
                                         extractVersion name <> "") board)
      with (fields := fields) (i := 0%nat) (t := Targets0)
      as [Heq | (f & Hin & HP & name & Hl & Hn)].
    + intros i f t.
      destruct (GoStrings.Contains (ToLower (Name f)) "k8s release") eqn:HP.
      * destruct (resolveField_release ToLower rangeMap board i f t) as [_ ->].
        destruct (resolveRelease_spec ToLower rangeMap i f t Hvalid HP)
          as [_ [[_ Heq] | (name & id & Hfirst & Hlook & Heq)]]; [left; exact Heq|].
        rewrite Heq. destruct (decide (id = strID "")); [left; reflexivity|].
        right. split; [reflexivity|]. exists name. split; [exact Hlook|].
        destruct Hfirst as (_ & _ & _ & Hparse & _). exact Hparse.
      * left. apply (resolveField_values_kept board i f t). exact HP.
    + left. exact Heq.
    + right. exists f, name. tauto.
  - destruct (resolveFrom_value viewValueID
                (fun f => GoStrings.Contains (ToLower (Name f)) "view")
                (fun f v => exists name, Options f !! name = Some v /\
                                         viewTest ToLower name = true) board)
      with (fields := fields) (i := 0%nat) (t := Targets0)
      as [Heq | (f & Hin & HP & name & Hl & Hn)].
    + intros i f t.
      destruct (GoStrings.Contains (ToLower (Name f)) "view") eqn:HP.
      * destruct (resolveField_view ToLower rangeMap board i f t) as [_ ->].
        destruct (resolveView_spec ToLower rangeMap i f t Hvalid HP)
          as [_ [Heq | Hopt]]; [left; exact Heq|].
        right. split; [reflexivity|exact Hopt].
      * left. apply (resolveField_values_kept board i f t). exact HP.
    + left. exact Heq.
    + right. exists f, name. tauto.
  - destruct (resolveFrom_value boardValueID
                (fun f => GoStrings.Contains (ToLower (Name f)) "board")
                (fun f v => exists name, Options f !! name = Some v /\
                                         GoStrings.Contains board (ToLower name) = true)
                board)
      with (fields := fields) (i := 0%nat) (t := Targets0)
      as [Heq | (f & Hin & HP & name & Hl & Hn)].
    + intros i f t.
      destruct (GoStrings.Contains (ToLower (Name f)) "board") eqn:HP.
      * destruct (resolveField_board ToLower rangeMap board i f t) as [_ ->].
        destruct (resolveBoard_spec ToLower rangeMap board i f t Hvalid HP)
          as [_ [[_ Heq] | (name & id & Hfirst & Hlook & Heq)]]; [left; exact Heq|].
        right. split; [reflexivity|]. exists name. rewrite Heq.
        split; [exact Hlook|].
        destruct Hfirst as (_ & _ & _ & Htest & _). exact Htest.
      * left. apply (resolveField_values_kept board i f t). exact HP.
    + left. exact Heq.
    + right. exists f, name. tauto.
  - destruct (resolveFrom_value statusValueID
                (fun f => GoStrings.Contains (ToLower (Name f)) "status")
                (fun f v => exists name, Options f !! name = Some v /\
                                         statusTest ToLower name = true) board)
      with (fields := fields) (i := 0%nat) (t := Targets0)
      as [Heq | (f & Hin & HP & name & Hl & Hn)].
    + intros i f t.
      destruct (GoStrings.Contains (ToLower (Name f)) "status") eqn:HP.
      * destruct (resolveField_status ToLower rangeMap board i f t) as [_ ->].
        destruct (resolveStatus_spec ToLower rangeMap i f t Hvalid HP)
          as [_ [Heq | Hopt]]; [left; exact Heq|].
        right. split; [reflexivity|exact Hopt].
      * left. apply (resolveField_values_kept board i f t). exact HP.
    + left. exact Heq.
    + right. exists f, name. tauto.
Qed.

Lemma resolveField_agree board board' i field t t' :
  agreeExceptBoardValue t t' ->
  agreeExceptBoardValue (resolveField ToLower rangeMap board i field t)
                        (resolveField ToLower rangeMap board' i field t').
Proof.
  unfold agreeExceptBoardValue.
  intros (H1 & H2 & H3 & H4 & H5 & H6 & H7).
  unfold resolveField, resolveStatus, resolveBoard, resolveView, resolveRelease.
  destruct (latestOption _) as [lv lid].
  repeat destruct (GoStrings.Contains _ _); cbn;
    rewrite ?H1, ?H2, ?H3, ?H4, ?H5, ?H6, ?H7; repeat split; reflexivity.
Qed.

(** X10. The board string decides the Board value and nothing else: with
    the same fields and the same visiting orders, two board strings give
    the same four field identifiers and the same Release, View and Status
    values. *)
Theorem resolveFields_board_only_board_value
    (board board' : string) (fields : list ProjectFieldInfo) :
  agreeExceptBoardValue (resolveFields ToLower rangeMap board fields)
                        (resolveFields ToLower rangeMap board' fields).
Proof.
  unfold resolveFields.
  assert (H0 : agreeExceptBoardValue Targets0 Targets0)
    by (repeat split; reflexivity).
  revert H0. generalize Targets0 at 1 3. generalize Targets0. generalize 0%nat.
  induction fields as [|f rest IH]; intros i t t' Hagree; [exact Hagree|].
  cbn [resolveFrom]. apply IH. apply resolveField_agree. exact Hagree.
Qed.

End resolution.

Lemma resolveFields_values_are_options_witness :
  let t := resolveFields GoStrings.ToLowerASCII rangeBackward
             "sig-release-master-blocking" (collectFields boardSchema []) in
  boardValueID t = nilID \/
  exists f name, f ∈ collectFields boardSchema [] /\
    GoStrings.Contains (GoStrings.ToLowerASCII (Name f)) "board" = true /\
    Options f !! name = Some (boardValueID t) /\
    GoStrings.Contains "sig-release-master-blocking"
      (GoStrings.ToLowerASCII name) = true.
Proof.
  apply (resolveFields_values_are_options GoStrings.ToLowerASCII rangeBackward
           "sig-release-master-blocking" (collectFields boardSchema [])
           validRange_backward).
Defined.

(* ===================================================================== *)
(** * Further properties of [CreateDraftIssue]: the requests of a run     *)
(* ===================================================================== *)

Lemma warningsOf_length api client g itemID h ups :
  (length (warningsOf api client g itemID h ups) <= length ups)%nat.
Proof.
  revert h. induction ups as [|u ups IH]; intros h; [simpl; lia|].
  cbn [warningsOf]. rewrite length_app. specialize (IH (h ++ [attempt client g itemID u])).
  destruct (serveUpdate _ _ _ _); simpl; lia.
Qed.

Lemma filter_isUpdate_attempts client g itemID ups :
  List.filter isUpdate (attempt client g itemID <$> ups) =
  attempt client g itemID <$> ups.
Proof.
  induction ups as [|u ups IH]; [reflexivity|].
  cbn [fmap list_fmap List.filter].
  change (isUpdate (attempt client g itemID u)) with true. cbv iota.
  f_equal. exact IH.
Qed.

Lemma filter_isCreate_attempts client g itemID ups :
  List.filter isCreate (attempt client g itemID <$> ups) = [].
Proof.
  induction ups as [|u ups IH]; [reflexivity|].
  cbn [fmap list_fmap List.filter].
  change (isCreate (attempt client g itemID u)) with false. cbv iota. exact IH.
Qed.

Lemma guarded_updates_length t :
  (length (List.filter updateGuard (fieldUpdates t)) <= 4)%nat.
Proof. apply (List.filter_length_le updateGuard (fieldUpdates t)). Qed.

Section requests.
Variable ToLower : string -> string.
Variable rangeMap : RangeOrder.
Variable api : Remote.

(** X11. Every update request of a run carries the token of the client,
    the project of the manager and the item identifier that the creation
    request of the same run returned; no update is sent unless the
    creation was sent before and succeeded. *)
Theorem updates_carry_created_item
    (g : ProjectManager) (client : Client) (title body board : string) (w : World) :
  let token := AccessToken client in
  let query := QueryFields token (strID (projectID g)) in
  let inputDraft := {| draftProjectID := strID (projectID g);
                       draftTitle := title; draftBody := Some body |} in
  let run := CreateDraftIssue ToLower rangeMap api g title body board w in
  githubClient g = Some client ->
  exists new,
    calls run.2 = calls w ++ new /\
    forall tok input,
      UpdateItemField tok input ∈ new ->
      tok = token /\
      updProjectID input = strID (projectID g) /\
      serveAddDraft api (calls w ++ [query]) token inputDraft
        = inr (updItemID input) /\
      exists before after,
        new = before ++ AddDraftIssue token inputDraft :: after /\
        UpdateItemField tok input ∈ after.
Proof.
  intros token query inputDraft run Hc. subst run.
  rewrite (CreateDraftIssue_run ToLower rangeMap api g client title body board w Hc).
  cbn zeta. fold token. fold query. fold inputDraft.
  destruct (serveQuery api (calls w) token (strID (projectID g))) as [err|nodes].
  { eexists. split; [reflexivity|]. intros tok input Hin.
    apply list_elem_of_singleton in Hin. discriminate. }
  destruct (serveAddDraft api (calls w ++ [query]) token inputDraft)
    as [err|itemID] eqn:Ha.
  { eexists. split; [reflexivity|]. intros tok input Hin.
    apply elem_of_cons in Hin as [Hin|Hin]; [discriminate|].
    apply list_elem_of_singleton in Hin. discriminate. }
  eexists. split; [reflexivity|]. intros tok input Hin.
  cbn [app] in Hin.
  apply elem_of_cons in Hin as [Hin|Hin]; [discriminate|].
  apply elem_of_cons in Hin as [Hin|Hin]; [discriminate|].
  pose proof Hin as Hin'.
  apply list_elem_of_fmap in Hin as (u & Heq & _).
  injection Heq as -> ->. cbn [updProjectID updItemID updateInput].
  split; [reflexivity|]. split; [reflexivity|]. split; [reflexivity|].
  exists [query]. eexists. split; [reflexivity|]. exact Hin'.
Qed.

(** X12. A run sends at most six requests: the query first, then at most
    one creation and at most four updates; it prints at most one line per
    update, and when it returns an error it has sent no update and
    printed nothing. *)
Theorem CreateDraftIssue_traffic
    (g : ProjectManager) (title body board : string) (w : World) :
  let run := CreateDraftIssue ToLower rangeMap api g title body board w in
  exists new out,
    calls run.2 = calls w ++ new /\
    stdout run.2 = stdout w ++ out /\
    (length new <= 6)%nat /\
    (new = [] \/ exists token project rest,
                   new = QueryFields token project :: rest /\
                   List.filter (fun c => negb (isMutation c)) rest = []) /\
    (length (List.filter isCreate new) <= 1)%nat /\
    (length (List.filter isUpdate new) <= 4)%nat /\
    (length out <= length (List.filter isUpdate new))%nat /\
    (run.1 <> None -> List.filter isUpdate new = [] /\ out = []).
Proof.
  cbn zeta. destruct (githubClient g) as [client|] eqn:Hc.
  2:{ unfold CreateDraftIssue. rewrite Hc. exists [], []. cbn.
      rewrite !app_nil_r. repeat split; try reflexivity; try lia. left. reflexivity. }
  rewrite (CreateDraftIssue_run ToLower rangeMap api g client title body board w Hc).
  cbn zeta.
  destruct (serveQuery _ _ _ _) as [err|nodes].
  { exists [QueryFields (AccessToken client) (strID (projectID g))], [].
    cbn [fst snd calls stdout].
    split; [reflexivity|]. split; [symmetry; apply app_nil_r|]. cbn.
    repeat split; try lia. right. eexists _, _, _. split; reflexivity. }
  destruct (serveAddDraft _ _ _ _) as [err|itemID].
  { eexists [_; _], []. cbn [fst snd calls stdout].
    split; [reflexivity|]. split; [symmetry; apply app_nil_r|]. cbn.
    repeat split; try lia. right. eexists _, _, _. split; reflexivity. }
  set (ups := List.filter updateGuard _).
  pose proof (guarded_updates_length
                (resolveFields ToLower rangeMap board (collectFields nodes []))) as Hl.
  fold ups in Hl.
  eexists _, _. cbn [fst snd calls stdout].
  split; [reflexivity|]. split; [reflexivity|].
  cbn [app List.filter isCreate isUpdate length].
  rewrite filter_isUpdate_attempts, filter_isCreate_attempts, length_fmap.
  split; [lia|]. split.
  { right. eexists _, _, _. split; [reflexivity|]. cbn [List.filter isMutation negb].
    induction ups as [|u ups IH]; [reflexivity|]. simpl. apply IH. simpl in Hl. lia. }
  split; [simpl; lia|]. split; [exact Hl|].
  split; [apply warningsOf_length|]. intros H. contradiction.
Qed.

(** X13. The operation is not idempotent: two runs in a row that both
    succeed send two creation requests with the same title and body, so
    the project gets two draft items. *)
Theorem CreateDraftIssue_twice
    (g : ProjectManager) (title body board : string) (w : World) :
  let run1 := CreateDraftIssue ToLower rangeMap api g title body board w in
  let run2 := CreateDraftIssue ToLower rangeMap api g title body board run1.2 in
  run1.1 = None -> run2.1 = None ->
  exists client,
    githubClient g = Some client /\
    List.filter isCreate (calls run2.2) =
      List.filter isCreate (calls w) ++
      [ AddDraftIssue (AccessToken client)
          {| draftProjectID := strID (projectID g);
             draftTitle := title; draftBody := Some body |};
        AddDraftIssue (AccessToken client)
          {| draftProjectID := strID (projectID g);
             draftTitle := title; draftBody := Some body |} ].
Proof.
  cbn zeta. destruct (githubClient g) as [client|] eqn:Hc.
  2:{ unfold CreateDraftIssue at 2. rewrite Hc. discriminate. }
  assert (Hone : forall w0,
    (CreateDraftIssue ToLower rangeMap api g title body board w0).1 = None ->
    List.filter isCreate
      (calls (CreateDraftIssue ToLower rangeMap api g title body board w0).2) =
    List.filter isCreate (calls w0) ++
      [AddDraftIssue (AccessToken client)
         {| draftProjectID := strID (projectID g);
            draftTitle := title; draftBody := Some body |}]).
  { intros w0.
    rewrite (CreateDraftIssue_run ToLower rangeMap api g client title body board w0 Hc).
    cbn zeta.
    destruct (serveQuery _ _ _ _) as [err|nodes]; [discriminate|].
    destruct (serveAddDraft _ _ _ _) as [err|itemID]; [discriminate|].
    intros _. cbn [fst snd calls stdout].
    rewrite List.filter_app. cbn [app List.filter isCreate].
    rewrite filter_isCreate_attempts. reflexivity. }
  intros H1 H2. exists client. split; [reflexivity|].
  rewrite (Hone _ H2), (Hone _ H1), <- app_assoc. reflexivity.
Qed.

Lemma resolveFields_unresolved (projF projV : Targets -> g4_ID)
    (sub : string) board (fs : list ProjectFieldInfo) :
  (forall i f t,
     projF (resolveField ToLower rangeMap board i f t) =
     if GoStrings.Contains (ToLower (Name f)) sub then ID f else projF t) ->
  (forall i f t,
     GoStrings.Contains (ToLower (Name f)) sub = false ->
     projV (resolveField ToLower rangeMap board i f t) = projV t) ->
  projF Targets0 = nilID -> projV Targets0 = nilID ->
  Forall (fun f => GoStrings.Contains (ToLower (Name f)) sub = false) fs ->
  projF (resolveFields ToLower rangeMap board fs) = nilID /\
  projV (resolveFields ToLower rangeMap board fs) = nilID.
Proof.
  intros HF HV HF0 HV0 Hnone. unfold resolveFields.
  rewrite <- HF0 at 1. rewrite <- HV0 at 1.
  generalize Targets0. generalize 0%nat.
  induction Hnone as [|f rest Hf _ IH]; intros i t; [split; reflexivity|].
  cbn [resolveFrom]. destruct (IH (S i) (resolveField ToLower rangeMap board i f t))
    as [-> ->].
  rewrite HF, Hf, (HV i f t Hf). split; reflexivity.
Qed.

(** X14. A role that no discovered field matches is not skipped: the
    guard compares the nil interface with the empty string, which are
    different, so once the item is created the run sends an update for
    the role with a nil field identifier and the option "%!s(<nil>)". *)
Theorem unresolved_role_is_still_updated
    (g : ProjectManager) (client : Client) (title body board : string)
    (w : World) (nodes : list FieldNode) (itemID : g4_ID) :
  let token := AccessToken client in
  let query := QueryFields token (strID (projectID g)) in
  let inputDraft := {| draftProjectID := strID (projectID g);
                       draftTitle := title; draftBody := Some body |} in
  let run := CreateDraftIssue ToLower rangeMap api g title body board w in
  let nilUpdate :=
    UpdateItemField token
      {| updProjectID := strID (projectID g); updItemID := itemID;
         updFieldID := nilID; updSingleSelectOptionID := Some "%!s(<nil>)" |} in
  githubClient g = Some client ->
  serveQuery api (calls w) token (strID (projectID g)) = inr nodes ->
  serveAddDraft api (calls w ++ [query]) token inputDraft = inr itemID ->
  forall sub,
    sub ∈ ["k8s release"; "view"; "status"; "board"] ->
    Forall (fun f => GoStrings.Contains (ToLower (Name f)) sub = false)
      (collectFields nodes []) ->
    nilUpdate ∈ calls run.2.
Proof.
  intros token query inputDraft run nilUpdate Hc Hq Ha sub Hsub Hnone. subst run.
  rewrite (CreateDraftIssue_run ToLower rangeMap api g client title body board w Hc).
  cbn zeta. fold token. fold query. fold inputDraft. rewrite Hq, Ha.
  cbn [snd calls]. apply elem_of_app. right. do 2 right.
  set (t := resolveFields ToLower rangeMap board (collectFields nodes [])).
  assert (Hin : exists name,
            {| fieldID := nilID; optionID := nilID; fieldName := name |}
              ∈ fieldUpdates t).
  { unfold fieldUpdates.
    repeat (apply elem_of_cons in Hsub as [->|Hsub]); [..|inversion Hsub].
    - destruct (resolveFields_unresolved k8sReleaseFieldID k8sReleaseValueID
                  "k8s release" board (collectFields nodes [])) as [HF HV];
        [intros; apply resolveField_fieldIDs
        |intros i f t0; apply (resolveField_values_kept ToLower rangeMap board i f t0)
        |reflexivity|reflexivity|exact Hnone|].
      fold t in HF, HV. rewrite HF, HV. eexists. left.
    - destruct (resolveFields_unresolved viewFieldID viewValueID
                  "view" board (collectFields nodes [])) as [HF HV];
        [intros; apply resolveField_fieldIDs
        |intros i f t0; apply (resolveField_values_kept ToLower rangeMap board i f t0)
        |reflexivity|reflexivity|exact Hnone|].
      fold t in HF, HV. rewrite HF, HV. eexists. right. left.
    - destruct (resolveFields_unresolved statusFieldID statusValueID
                  "status" board (collectFields nodes [])) as [HF HV];
        [intros; apply resolveField_fieldIDs
        |intros i f t0; apply (resolveField_values_kept ToLower rangeMap board i f t0)
        |reflexivity|reflexivity|exact Hnone|].
      fold t in HF, HV. rewrite HF, HV. eexists. do 2 right. left.
    - destruct (resolveFields_unresolved boardFieldID boardValueID
                  "board" board (collectFields nodes [])) as [HF HV];
        [intros; apply resolveField_fieldIDs
        |intros i f t0; apply (resolveField_values_kept ToLower rangeMap board i f t0)
        |reflexivity|reflexivity|exact Hnone|].
      fold t in HF, HV. rewrite HF, HV. eexists. do 3 right. left. }
  destruct Hin as [name Hin].
  apply list_elem_of_fmap.
  exists {| fieldID := nilID; optionID := nilID; fieldName := name |}.
  split; [reflexivity|].
  apply list_elem_of_In, filter_In. split; [apply list_elem_of_In, Hin|reflexivity].
Qed.

End requests.

Lemma updates_carry_created_item_witness :
  exists new,
    calls (CreateDraftIssue GoStrings.ToLowerASCII rangeForward
             (remoteOf boardSchema []) (NewProjectManager "token")
             "flake: TestFoo" "body text" "sig-release-master-blocking" World0).2
      = calls World0 ++ new /\
    forall tok input,
      UpdateItemField tok input ∈ new ->
      tok = "token" /\ updItemID input = strID "ITEM".
Proof.
  destruct (updates_carry_created_item GoStrings.ToLowerASCII rangeForward
              (remoteOf boardSchema []) (NewProjectManager "token")
              {| AccessToken := "token" |}
              "flake: TestFoo" "body text" "sig-release-master-blocking" World0
              eq_refl) as (new & Hcalls & Hnew).
  exists new. split; [exact Hcalls|].
  intros tok input Hin. destruct (Hnew tok input Hin) as (Htok & _ & Hitem & _).
  split; [exact Htok|]. cbn in Hitem. injection Hitem as <-. reflexivity.
Defined.

Lemma CreateDraftIssue_twice_witness :
  let run1 :=
    CreateDraftIssue GoStrings.ToLowerASCII rangeForward (remoteOf boardSchema [])
      (NewProjectManager "token") "flake: TestFoo" "body text"
      "sig-release-master-blocking" World0 in
  let run2 :=
    CreateDraftIssue GoStrings.ToLowerASCII rangeForward (remoteOf boardSchema [])
      (NewProjectManager "token") "flake: TestFoo" "body text"
      "sig-release-master-blocking" run1.2 in
  length (List.filter isCreate (calls run2.2)) = 2%nat.
Proof.
  cbn zeta.
  destruct (CreateDraftIssue_twice GoStrings.ToLowerASCII rangeForward
              (remoteOf boardSchema []) (NewProjectManager "token")
              "flake: TestFoo" "body text" "sig-release-master-blocking" World0)
    as (client & _ & Hcalls); [vm_compute; reflexivity..|].
  rewrite Hcalls. reflexivity.
Defined.

Lemma unresolved_role_is_still_updated_witness :
  UpdateItemField "token"
    {| updProjectID := strID PROJECT_ID; updItemID := strID "ITEM";
       updFieldID := nilID; updSingleSelectOptionID := Some "%!s(<nil>)" |}
  ∈ calls (CreateDraftIssue GoStrings.ToLowerASCII rangeForward
             (remoteOf twoBoardsSchema []) (NewProjectManager "token")
             "flake: TestFoo" "body text" "sig-release-master-blocking" World0).2.
Proof.
  apply (unresolved_role_is_still_updated GoStrings.ToLowerASCII rangeForward
           (remoteOf twoBoardsSchema []) (NewProjectManager "token")
           {| AccessToken := "token" |}
           "flake: TestFoo" "body text" "sig-release-master-blocking" World0
           twoBoardsSchema (strID "ITEM") eq_refl eq_refl eq_refl "view").
  - right. left.
  - vm_compute. repeat constructor.
Defined.

(* ===================================================================== *)
(** * Properties of package [cmd]                                         *)
(* ===================================================================== *)

(** X15. The token is the primary variable when it is set and not empty,
    and the fallback variable otherwise: an empty primary variable counts
    as unset. The token is empty exactly when neither variable holds a
    value that is not empty. *)
Theorem initToken_lookup (env : gmap string string) :
  (forall v, env !! "SIGNALHOUND_GITHUB_TOKEN" = Some v -> v <> "" ->
             initToken env = v) /\
  ((env !! "SIGNALHOUND_GITHUB_TOKEN" = None \/
    env !! "SIGNALHOUND_GITHUB_TOKEN" = Some "") ->
   initToken env = Getenv env "GITHUB_TOKEN") /\
  (initToken env = "" <->
   (forall v, env !! "SIGNALHOUND_GITHUB_TOKEN" = Some v -> v = "") /\
   (forall v, env !! "GITHUB_TOKEN" = Some v -> v = "")).
Proof.
  unfold initToken, Getenv.
  destruct (env !! "SIGNALHOUND_GITHUB_TOKEN") as [p|] eqn:Hp;
    destruct (env !! "GITHUB_TOKEN") as [q|] eqn:Hq; cbv [default from_option id].
  - split; [|split].
    + intros v [= <-] Hv. destruct (String.eqb_spec p ""); [contradiction|reflexivity].
    + intros [H|[= ->]]; [discriminate|reflexivity].
    + destruct (String.eqb_spec p "") as [->|Hne]; split.
      * intros ->. split; intros v [= <-]; reflexivity.
      * intros [_ H]. apply H. reflexivity.
      * intros ->. contradiction.
      * intros [H _]. apply H. reflexivity.
  - split; [|split].
    + intros v [= <-] Hv. destruct (String.eqb_spec p ""); [contradiction|reflexivity].
    + intros [H|[= ->]]; [discriminate|reflexivity].
    + destruct (String.eqb_spec p "") as [->|Hne]; split.
      * intros _. split; [intros v [= <-]; reflexivity|intros v H; discriminate].
      * reflexivity.
      * intros ->. contradiction.
      * intros [H _]. apply H. reflexivity.
  - split; [|split].
    + intros v H. discriminate.
    + reflexivity.
    + cbn. split.
      * intros ->. split; [intros v H; discriminate|intros v [= <-]; reflexivity].
      * intros [_ H]. apply H. reflexivity.
  - split; [|split].
    + intros v H. discriminate.
    + reflexivity.
    + cbn. split; [|reflexivity].
      intros _. split; intros v H; discriminate.
Qed.

Lemma initToken_lookup_witness :
  initToken envBoth = "ghp_primary" /\ initToken envFallback = "ghp_fallback".
Proof.
  split.
  - apply (initToken_lookup envBoth); [reflexivity|discriminate].
  - apply (initToken_lookup envFallback). left. reflexivity.
Defined.

Section fetch.
Context {Summary Tab TestRun Statuses : Type}.
Variable TestRuns : Tab -> list TestRun.
Variable ERROR_STATUSES : Statuses.
Variable tg : TestGrid Summary Tab Statuses.
Variables minFailure minFlake : Z.

(** The inner loop asks for the tests of every summary, in order, keeps
    the tabs that have test runs and prints one line for every tab it
    could not fetch. *)
Lemma tabsLoop_run summaries tabs w :
  exists added lines,
    tabsLoop TestRuns tg minFailure minFlake summaries tabs w =
      (tabs ++ added,
       {| tgCalls := tgCalls w ++
            ((fun s => TestsCall s minFailure minFlake) <$> summaries);
          printed := printed w ++ lines |}) /\
    Forall (fun t => TestRuns t <> []) added /\
    Forall (fun line => exists err,
              line = ("error fetching table : " +:+ Error err) +:+ String "010" "")
      lines /\
    (length added + length lines <= length summaries)%nat.
Proof.
  revert tabs w. induction summaries as [|s rest IH]; intros tabs [cs out].
  { exists [], []. cbn. rewrite !app_nil_r. repeat split; constructor. }
  cbn [tabsLoop]. unfold mbind at 1, CM_bind at 1, tgFetchTabTests.
  cbn [tgCalls printed].
  destruct (serveTabTests tg cs s minFailure minFlake) as [err|tab].
  - unfold mbind, CM_bind, Println. cbn [tgCalls printed].
    destruct (IH tabs {| tgCalls := cs ++ [TestsCall s minFailure minFlake];
                         printed := out ++ [("error fetching table : " +:+ Error err)
                                              +:+ String "010" ""] |})
      as (added & lines & -> & Hadd & Hlines & Hlen).
    exists added,
      ((("error fetching table : " +:+ Error err) +:+ String "010" "") :: lines).
    cbn [tgCalls printed fmap list_fmap]. rewrite <- !app_assoc.
    split; [reflexivity|]. split; [exact Hadd|]. split.
    + constructor; [eauto|exact Hlines].
    + simpl. lia.
  - destruct (Nat.ltb_spec 0 (length (TestRuns tab))) as [Hruns|Hruns].
    + destruct (IH (tabs ++ [tab])
                   {| tgCalls := cs ++ [TestsCall s minFailure minFlake];
                      printed := out |})
        as (added & lines & -> & Hadd & Hlines & Hlen).
      exists (tab :: added), lines.
      cbn [tgCalls printed fmap list_fmap]. rewrite <- !app_assoc.
      split; [reflexivity|]. split.
      * constructor; [|exact Hadd]. intros He. rewrite He in Hruns. simpl in Hruns. lia.
      * split; [exact Hlines|simpl; lia].
    + destruct (IH tabs {| tgCalls := cs ++ [TestsCall s minFailure minFlake];
                           printed := out |})
        as (added & lines & -> & Hadd & Hlines & Hlen).
      exists added, lines.
      cbn [tgCalls printed fmap list_fmap]. rewrite <- !app_assoc.
      split; [reflexivity|]. split; [exact Hadd|]. split; [exact Hlines|simpl; lia].
Qed.

Lemma dashboardsLoop_cons d rest tabs w :
  dashboardsLoop TestRuns ERROR_STATUSES tg minFailure minFlake (d :: rest) tabs w =
    let w1 := {| tgCalls := tgCalls w ++ [SummaryCall d ERROR_STATUSES];
                 printed := printed w |} in
    match serveTabSummary tg (tgCalls w) d ERROR_STATUSES with
    | inl err => (inl err, w1)
    | inr summaries =>
        dashboardsLoop TestRuns ERROR_STATUSES tg minFailure minFlake rest
          (tabsLoop TestRuns tg minFailure minFlake summaries tabs w1).1
          (tabsLoop TestRuns tg minFailure minFlake summaries tabs w1).2
    end.
Proof.
  cbn [dashboardsLoop]. unfold mbind at 1, CM_bind at 1, tgFetchTabSummary.
  cbn zeta. destruct (serveTabSummary _ _ _ _); [reflexivity|].
  unfold mbind, CM_bind. destruct (tabsLoop _ _ _ _ _ _ _). reflexivity.
Qed.

(** What the outer loop guarantees, from any list of dashboards. *)
Lemma dashboardsLoop_run dashboards tabs w :
  Forall (fun t => TestRuns t <> []) tabs ->
  let run := dashboardsLoop TestRuns ERROR_STATUSES tg minFailure minFlake
               dashboards tabs w in
  exists new lines,
    tgCalls run.2 = tgCalls w ++ new /\
    printed run.2 = printed w ++ lines /\
    (length (List.filter isSummaryCall new) <= length dashboards)%nat /\
    Forall (fun c => match c with
                     | SummaryCall d st => d ∈ dashboards /\ st = ERROR_STATUSES
                     | TestsCall _ f k => f = minFailure /\ k = minFlake
                     end) new /\
    head new = (fun d => SummaryCall d ERROR_STATUSES) <$> head dashboards /\
    Forall (fun line => exists err,
              line = ("error fetching table : " +:+ Error err) +:+ String "010" "")
      lines /\
    (length lines <= length (List.filter (fun c => negb (isSummaryCall c)) new))%nat /\
    match run.1 with
    | inr tabs' => Forall (fun t => TestRuns t <> []) tabs'
    | inl err =>
        exists before d,
          new = before ++ [SummaryCall d ERROR_STATUSES] /\
          serveTabSummary tg (tgCalls w ++ before) d ERROR_STATUSES = inl err
    end.
Proof.
  revert tabs w. induction dashboards as [|d rest IH]; intros tabs [cs out] Htabs.
  { exists [], []. cbn. rewrite !app_nil_r.
    repeat split; try constructor; try exact Htabs. }
  cbn zeta. rewrite dashboardsLoop_cons. cbn zeta. cbn [tgCalls printed].
  destruct (serveTabSummary tg cs d ERROR_STATUSES) as [err|summaries] eqn:Hs.
  - exists [SummaryCall d ERROR_STATUSES], [].
    cbn [fst snd tgCalls printed]. rewrite app_nil_r.
    split; [reflexivity|]. split; [reflexivity|]. split; [simpl; lia|].
    split; [constructor; [split; [left|reflexivity]|constructor]|].
    split; [reflexivity|]. split; [constructor|]. split; [simpl; lia|].
    exists [], d. rewrite app_nil_r. split; [reflexivity|exact Hs].
  - destruct (tabsLoop_run summaries tabs
                {| tgCalls := cs ++ [SummaryCall d ERROR_STATUSES]; printed := out |})
      as (added & lines1 & -> & Hadd & Hlines1 & Hlen1).
    cbn [fst snd].
    cbn [tgCalls printed] in *.
    set (w1 := {| tgCalls := _; printed := _ |}).
    destruct (IH (tabs ++ added) w1) as
      (new & lines & Hcalls & Hprinted & Hsum & Hshape & _ & Hlines & Hlen & Hres).
    { apply Forall_app. split; assumption. }
    cbn zeta in *.
    remember (dashboardsLoop TestRuns ERROR_STATUSES tg minFailure minFlake rest
                (tabs ++ added) w1) as R eqn:HR.
    clear HR. subst w1. cbn [tgCalls printed] in *.
    exists (SummaryCall d ERROR_STATUSES ::
            ((fun s => TestsCall s minFailure minFlake) <$> summaries) ++ new),
           (lines1 ++ lines).
    rewrite Hcalls, Hprinted, <- !app_assoc. cbn [app].
    assert (Hts : forall l : list Summary,
              List.filter isSummaryCall
                ((fun s => TestsCall (Statuses := Statuses) s minFailure minFlake) <$> l) = []).
    { induction l; [reflexivity|]. exact IHl. }
    assert (Hnts : forall l : list Summary,
              length (List.filter (fun c => negb (isSummaryCall c))
                ((fun s => TestsCall (Statuses := Statuses) s minFailure minFlake) <$> l))
              = length l).
    { induction l; [reflexivity|]. simpl. f_equal. exact IHl. }
    split; [reflexivity|]. split; [reflexivity|]. split.
    { cbn [List.filter isSummaryCall length]. rewrite List.filter_app, Hts. simpl. lia. }
    split.
    { constructor; [split; [left|reflexivity]|]. apply Forall_app. split.
      - apply Forall_fmap, Forall_forall. intros s _. split; reflexivity.
      - eapply Forall_impl; [exact Hshape|]. intros [d' st|s f k]; [|tauto].
        intros [Hd ->]. split; [right; exact Hd|reflexivity]. }
    split; [reflexivity|]. split; [apply Forall_app; split; assumption|]. split.
    { cbn [List.filter isSummaryCall negb]. rewrite List.filter_app, !length_app, Hnts.
      lia. }
    destruct R.1 as [err|tabs']; [|exact Hres].
    destruct Hres as (before & d' & -> & Hfail).
    exists (SummaryCall d ERROR_STATUSES ::
            ((fun s => TestsCall s minFailure minFlake) <$> summaries) ++ before), d'.
    split; [cbn [app]; rewrite <- app_assoc; reflexivity|].
    rewrite <- Hfail. f_equal. cbn [app]. rewrite <- !app_assoc. reflexivity.
Qed.

(** X16. When [FetchTabSummary] succeeds, every tab it returns has at
    least one test run: the tabs without test runs and the tabs that
    could not be fetched are left out. *)
Theorem FetchTabSummary_tabs_have_runs
    (w : CmdWorld Summary Statuses) (tabs : list Tab) :
  (FetchTabSummary TestRuns ERROR_STATUSES tg minFailure minFlake w).1 = inr tabs ->
  Forall (fun t => TestRuns t <> []) tabs.
Proof.
  intros Hrun. unfold FetchTabSummary in Hrun.
  destruct (dashboardsLoop_run
              ["sig-release-master-blocking"; "sig-release-master-informing"] [] w)
    as (new & lines & _ & _ & _ & _ & _ & _ & _ & Hres); [constructor|].
  cbn zeta in Hres. rewrite Hrun in Hres. exact Hres.
Qed.

(** X17. [FetchTabSummary] fails only when the summaries of a dashboard
    cannot be listed. It then returns that error as it is, and the
    failed request is the last one it sent: the dashboards after it are
    not asked for, and the tabs collected before are dropped. A tab whose
    tests cannot be fetched never makes the call fail. *)
Theorem FetchTabSummary_fails_on_summary_only
    (w : CmdWorld Summary Statuses) (err : error) :
  let run := FetchTabSummary TestRuns ERROR_STATUSES tg minFailure minFlake w in
  run.1 = inl err ->
  exists before dashboard,
    tgCalls run.2 = tgCalls w ++ before ++ [SummaryCall dashboard ERROR_STATUSES] /\
    dashboard ∈ ["sig-release-master-blocking"; "sig-release-master-informing"] /\
    serveTabSummary tg (tgCalls w ++ before) dashboard ERROR_STATUSES = inl err.
Proof.
  cbn zeta. intros Hrun. unfold FetchTabSummary in *.
  destruct (dashboardsLoop_run
              ["sig-release-master-blocking"; "sig-release-master-informing"] [] w)
    as (new & lines & Hcalls & _ & _ & Hshape & _ & _ & _ & Hres); [constructor|].
  cbn zeta in *. rewrite Hrun in Hres.
  destruct Hres as (before & d & -> & Hfail).
  exists before, d. split; [exact Hcalls|]. split; [|exact Hfail].
  apply Forall_app in Hshape as [_ Hlast].
  apply Forall_inv in Hlast. tauto.
Qed.

(** X18. Every run of [FetchTabSummary] begins by listing the blocking
    dashboard and lists at most two dashboards; every request for the
    tests of a tab carries the two thresholds of the command; every line
    printed reports a tab that could not be fetched, and there is at most
    one line per tab asked for. *)
Theorem FetchTabSummary_requests (w : CmdWorld Summary Statuses) :
  let run := FetchTabSummary TestRuns ERROR_STATUSES tg minFailure minFlake w in
  exists new lines,
    tgCalls run.2 = tgCalls w ++ new /\
    printed run.2 = printed w ++ lines /\
    head new = Some (SummaryCall "sig-release-master-blocking" ERROR_STATUSES) /\
    (length (List.filter isSummaryCall new) <= 2)%nat /\
    Forall (fun c => match c with
                     | SummaryCall d st =>
                         d ∈ ["sig-release-master-blocking";
                              "sig-release-master-informing"] /\
                         st = ERROR_STATUSES
                     | TestsCall _ f k => f = minFailure /\ k = minFlake
                     end) new /\
    Forall (fun line => exists err,
              line = ("error fetching table : " +:+ Error err) +:+ String "010" "")
      lines /\
    (length lines <= length (List.filter (fun c => negb (isSummaryCall c)) new))%nat.
Proof.
  cbn zeta. unfold FetchTabSummary.
  destruct (dashboardsLoop_run
              ["sig-release-master-blocking"; "sig-release-master-informing"] [] w)
    as (new & lines & Hcalls & Hprinted & Hsum & Hshape & Hhead & Hlines & Hlen & _);
    [constructor|].
  exists new, lines. repeat split; assumption.
Qed.

End fetch.

Lemma FetchTabSummary_tabs_have_runs_witness :
  exists tabs,
    (FetchTabSummary snd tt exampleGrid 0 0 CmdWorld0).1 = inr tabs /\
    Forall (fun t : string * list nat => t.2 <> []) tabs.
Proof.
  eexists. split; [vm_compute; reflexivity|].
  apply (FetchTabSummary_tabs_have_runs snd tt exampleGrid 0 0 CmdWorld0).
  vm_compute. reflexivity.
Defined.

Lemma FetchTabSummary_fails_on_summary_only_witness :
  exists before dashboard,
    tgCalls (FetchTabSummary snd tt brokenGrid 0 0 CmdWorld0).2 =
      tgCalls CmdWorld0 ++ before ++ [SummaryCall dashboard tt] /\
    dashboard ∈ ["sig-release-master-blocking"; "sig-release-master-informing"].
Proof.
  destruct (FetchTabSummary_fails_on_summary_only snd tt brokenGrid 0 0 CmdWorld0
              (errors_New "testgrid unavailable"))
    as (before & d & H1 & H2 & _); [vm_compute; reflexivity|].
  exists before, d. split; assumption.
Defined.
